(** * A shallow embedding of the Tree-sitter Java indexer

    The development follows [call_graph/indexer.py] and its helpers:
    the data model of [models/ast_models.py], the two tree-sitter helpers
    of [tree_sitter_helpers.py], the indexer [JavaIndexer] with its
    nesting stack, its method extractor and its worklist call collector,
    and the directory scanner of [inputs/directory_scanning.py].

    The parse tree provider is external: a parse tree is an input here. *)

From Equations Require Import Equations.
From stdpp Require Import base option list strings gmap.

Set Default Proof Using "Type".
Set Warnings "-register-all".

(** ** Parse tree nodes

    A tree-sitter node, with the attributes the indexer reads. The field
    name under which a node hangs in its parent ([child_by_field_name])
    is stored in the child. Byte strings are modelled as [string], one
    character per byte: the model is that of ASCII sources, on which the
    decoding step of [node_text] is the identity. *)

Inductive Node : Type := mkNode {
  type : string;
  field : option string;
  start_byte : nat;
  end_byte : nat;
  start_point : nat * nat;
  children : list Node
}.

Section NodeInduction.
Variable P : Node → Prop.
Hypothesis step : ∀ ty f sb eb sp cs,
  Forall P cs → P (mkNode ty f sb eb sp cs).

Fixpoint Node_ind_nested (n : Node) : P n :=
  match n with
  | mkNode ty f sb eb sp cs =>
      step ty f sb eb sp cs
        ((fix all (l : list Node) : Forall P l :=
            match l with
            | [] => @List.Forall_nil _ P
            | c :: l' => @List.Forall_cons _ P c l' (Node_ind_nested c) (all l')
            end) cs)
  end.
End NodeInduction.

(** [node.child_by_field_name(f)]: the first child stored under field [f]. *)
Definition child_by_field_name (node : Node) (f : string) : option Node :=
  List.find (λ c, bool_decide (field c = Some f)) (children node).

(** ** tree_sitter_helpers.py *)

(** [source_bytes[node.start_byte:node.end_byte]]; a Python slice whose
    end lies before its start is empty, and one that runs past the end of
    the source stops there, as [substring] does. The call of
    [.decode("utf-8", errors="replace")] is the identity on ASCII bytes
    and is not modelled beyond them. *)
Definition node_text (source_bytes : string) (node : Node) : string :=
  String.substring (start_byte node) (end_byte node - start_byte node) source_bytes.

Definition node_point (node : Node) : nat * nat :=
  (fst (start_point node), snd (start_point node)).

(** ** models/ast_models.py *)

Record MethodCall : Type := mkMethodCall {
  call_name : string;
  receiver : option string;
  call_line : nat;
  call_col : nat
}.

Record MethodInfo : Type := mkMethodInfo {
  name : string;
  params : list string;
  return_type : option string;
  line : nat;
  col : nat;
  calls : list MethodCall
}.

Record ClassInfo : Type := mkClassInfo {
  simple_name : string;
  fqcn : string;
  class_line : nat;
  class_col : nat;
  methods : gmap string (list MethodInfo)
}.

(** ** Python lists used as stacks

    A Python list is a [list] in the same order: [append] and [extend]
    add at the end, [pop] removes the last element and raises on the
    empty list. *)

Definition list_pop {A} (l : list A) : option (list A * A) :=
  match reverse l with
  | [] => None
  | x :: r => Some (reverse r, x)
  end.

Lemma list_pop_snoc {A} (l : list A) (x : A) : list_pop (l ++ [x]) = Some (l, x).
Proof.
  unfold list_pop. rewrite reverse_snoc. by rewrite reverse_involutive.
Qed.

Lemma list_pop_nil {A} : list_pop (@nil A) = None.
Proof. reflexivity. Qed.

Lemma list_pop_Some {A} (l r : list A) (x : A) :
  list_pop l = Some (r, x) → l = r ++ [x].
Proof.
  unfold list_pop. destruct (reverse l) as [|y t] eqn:E; [done|].
  intros [= <- <-]. rewrite <- (reverse_involutive l), E.
  by rewrite reverse_cons.
Qed.

Lemma list_pop_None {A} (l : list A) : list_pop l = None → l = [].
Proof.
  unfold list_pop. destruct (reverse l) as [|y t] eqn:E; [|done].
  intros _. rewrite <- (reverse_involutive l), E. done.
Qed.

(** ** The call-site collector *)

(** What one iteration of the loop of [_collect_calls_in_method] appends
    for the node it popped: the two [if]s, in order. *)
Definition invocation_calls (source_bytes : string) (node : Node) : list MethodCall :=
  if bool_decide (type node = "method_invocation") then
    let name_node := child_by_field_name node "name" in
    let obj_node := child_by_field_name node "object" in
    let call_name := match name_node with
                     | Some n => node_text source_bytes n
                     | None => "<unknown>"
                     end in
    let receiver := match obj_node with
                    | Some o => Some (node_text source_bytes o)
                    | None => None
                    end in
    let '(line, col) := node_point node in
    [mkMethodCall call_name receiver line col]
  else [].

Definition creation_calls (source_bytes : string) (node : Node) : list MethodCall :=
  if bool_decide (type node = "object_creation_expression") then
    let type_node := child_by_field_name node "type" in
    let ctor_name := match type_node with
                     | Some t => node_text source_bytes t
                     | None => "<anon>"
                     end in
    let '(line, col) := node_point node in
    [mkMethodCall ("<init:" +:+ ctor_name +:+ ">") None line col]
  else [].

Definition node_calls (source_bytes : string) (node : Node) : list MethodCall :=
  invocation_calls source_bytes node ++ creation_calls source_bytes node.

(** The number of nodes of a tree, and of a worklist: the measure under
    which the [while stack:] loop terminates. *)
Fixpoint node_size (n : Node) : nat :=
  match n with
  | mkNode _ _ _ _ _ cs =>
      S ((fix sum (l : list Node) : nat :=
            match l with
            | [] => 0
            | c :: l' => node_size c + sum l'
            end) cs)
  end.

Fixpoint nodes_size (l : list Node) : nat :=
  match l with
  | [] => 0
  | c :: l' => node_size c + nodes_size l'
  end.

Lemma node_size_eq n : node_size n = S (nodes_size (children n)).
Proof.
  by destruct n.
Qed.

Lemma nodes_size_app l1 l2 : nodes_size (l1 ++ l2) = nodes_size l1 + nodes_size l2.
Proof. induction l1; simpl; lia. Qed.

Definition inspect {A} (a : A) : {b : A | a = b} := exist _ a eq_refl.

(** The loop [while stack: node = stack.pop(); ...; stack.extend(node.children)]
    with the list of calls of the [method_info] it appends to. *)
Equations? collect_loop (source_bytes : string) (stack : list Node)
    (calls : list MethodCall) : list MethodCall by wf (nodes_size stack) lt :=
  collect_loop source_bytes stack calls with inspect (list_pop stack) := {
    | exist _ None _ => calls
    | exist _ (Some (rest, node)) Hpop =>
        collect_loop source_bytes (rest ++ children node)
          (calls ++ node_calls source_bytes node)
  }.
Proof.
  apply list_pop_Some in Hpop as ->.
  rewrite !nodes_size_app. simpl. rewrite (node_size_eq node). lia.
Qed.

Definition _collect_calls_in_method (source_bytes : string) (method_node : Node)
    (method_info : MethodInfo) : MethodInfo :=
  mkMethodInfo (name method_info) (params method_info) (return_type method_info)
    (line method_info) (col method_info)
    (collect_loop source_bytes [method_node] (calls method_info)).

(** ** Errors

    The exceptions the modelled code can raise, and the result of a call
    that may raise. *)

Inductive Exn : Type :=
| KeyError (key : string)
| IndexError
| OSError (msg : string)
| NameError (var : string).

Inductive Result (A : Type) : Type :=
| Ok (a : A)
| Raise (e : Exn).
Arguments Ok {A} a.
Arguments Raise {A} e.

#[global] Instance Result_ret : MRet Result := λ A a, Ok a.
#[global] Instance Result_bind : MBind Result := λ A B k m,
  match m with
  | Ok a => k a
  | Raise e => Raise e
  end.

(** ** The indexer *)

(** A frame of the nesting stack: [(simple_name, line, col)]. *)
Definition Frame : Type := string * nat * nat.

(** [[c[0] for c in class_stack]] *)
Definition frame_names (class_stack : list Frame) : list string :=
  map (λ c : Frame, c.1.1) class_stack.

(** The in-memory index of a [JavaIndexer]. *)
Record JavaIndexer : Type := mkJavaIndexer {
  packages : gset string;
  classes : gmap string ClassInfo
}.

(** Truth value of an optional string: [None] and [""] are false. *)
Definition truthy (s : option string) : bool :=
  match s with
  | Some (String _ _) => true
  | _ => false
  end.

Definition _fqcn (pkg : option string) (class_names : list string) : string :=
  let left := match pkg with
              | Some p => if truthy pkg then p +:+ "." else ""
              | None => ""
              end in
  left +:+ String.concat "." class_names.

(** The loop of [_find_package] over [root.children]. *)
Fixpoint find_package_in (source_bytes : string) (cs : list Node) : option string :=
  match cs with
  | [] => None
  | child :: cs' =>
      if bool_decide (type child = "package_declaration") then
        match child_by_field_name child "name" with
        | Some name_node => Some (node_text source_bytes name_node)
        | None => find_package_in source_bytes cs'
        end
      else find_package_in source_bytes cs'
  end.

Definition _find_package (source_bytes : string) (root : Node) : option string :=
  find_package_in source_bytes (children root).

(** The loop over [params_node.children]: one token per child of type
    ["parameter"]. *)
Definition param_token (source_bytes : string) (p : Node) : string :=
  let p_type := child_by_field_name p "type" in
  let p_name := child_by_field_name p "name" in
  let p_type_s := match p_type with
                  | Some t => node_text source_bytes t
                  | None => "?"
                  end in
  let p_name_s := match p_name with
                  | Some n => node_text source_bytes n
                  | None => "param"
                  end in
  p_type_s +:+ " " +:+ p_name_s.

Fixpoint collect_params (source_bytes : string) (ps : list Node)
    (params : list string) : list string :=
  match ps with
  | [] => params
  | p :: ps' =>
      if bool_decide (type p = "parameter")
      then collect_params source_bytes ps' (params ++ [param_token source_bytes p])
      else collect_params source_bytes ps' params
  end.

Definition _index_method (source_bytes : string) (node : Node)
    (pkg : option string) (class_stack : list Frame) (self : JavaIndexer)
    : Result JavaIndexer :=
  match class_stack with
  | [] => Ok self
  | _ :: _ =>
      let fq := _fqcn pkg (frame_names class_stack) in
      let name_node := child_by_field_name node "name" in
      let method_name := match name_node with
                         | Some n => node_text source_bytes n
                         | None => "<anonymous>"
                         end in
      let return_type :=
        if bool_decide (type node = "method_declaration") then
          match child_by_field_name node "type" with
          | Some ret_node => Some (node_text source_bytes ret_node)
          | None => None
          end
        else None in
      let params_node := child_by_field_name node "parameters" in
      let params := match params_node with
                    | Some pn => collect_params source_bytes (children pn) []
                    | None => []
                    end in
      let '(line, col) := node_point node in
      let method_info := mkMethodInfo method_name params return_type line col [] in
      let method_info := _collect_calls_in_method source_bytes node method_info in
      match classes self !! fq with
      | None => Raise (KeyError fq)
      | Some cls =>
          let overloads := default [] (methods cls !! method_name) ++ [method_info] in
          let cls := mkClassInfo (simple_name cls) (fqcn cls)
                       (class_line cls) (class_col cls)
                       (<[method_name := overloads]> (methods cls)) in
          Ok (mkJavaIndexer (packages self) (<[fq := cls]> (classes self)))
      end
  end.

(** The name node that makes [_walk_and_index] treat a node as a class:
    the node is a [class_declaration] and has a [name] field. *)
Definition class_name_node (node : Node) : option Node :=
  if bool_decide (type node = "class_declaration")
  then child_by_field_name node "name"
  else None.

Definition is_method_like (node : Node) : bool :=
  bool_decide (type node = "method_declaration")
  || bool_decide (type node = "constructor_declaration").

(** [_walk_and_index]. The Python method calls itself once for each level
    of the tree; the recursion limit of the interpreter is not modelled,
    so that the results below are those of trees it can descend. *)
Fixpoint _walk_and_index (source_bytes : string) (node : Node)
    (pkg : option string) (class_stack : list Frame) (self : JavaIndexer)
    {struct node} : Result (list Frame * JavaIndexer) :=
  let for_child_in :=
    fix for_child_in (cs : list Node) (class_stack : list Frame)
        (self : JavaIndexer) {struct cs} : Result (list Frame * JavaIndexer) :=
      match cs with
      | [] => Ok (class_stack, self)
      | child :: cs' =>
          '(class_stack, self) ← _walk_and_index source_bytes child pkg class_stack self;
          for_child_in cs' class_stack self
      end in
  match class_name_node node with
  | Some class_name_node =>
      let simple := node_text source_bytes class_name_node in
      let '(line, col) := node_point node in
      let class_stack := class_stack ++ [(simple, line, col)] in
      let fq := _fqcn pkg (frame_names class_stack) in
      let self :=
        match classes self !! fq with
        | Some _ => self
        | None =>
            mkJavaIndexer (packages self)
              (<[fq := mkClassInfo simple fq line col ∅]> (classes self))
        end in
      '(class_stack, self) ← for_child_in (children node) class_stack self;
      match list_pop class_stack with
      | Some (class_stack, _) => Ok (class_stack, self)
      | None => Raise IndexError
      end
  | None =>
      self ← (if is_method_like node
              then _index_method source_bytes node pkg class_stack self
              else Ok self);
      for_child_in (children node) class_stack self
  end.

(** The two [for child in node.children] loops of [_walk_and_index]. *)
Section WalkChildren.
Variables (source_bytes : string) (pkg : option string).

Fixpoint walk_children (cs : list Node) (class_stack : list Frame)
    (self : JavaIndexer) {struct cs} : Result (list Frame * JavaIndexer) :=
  match cs with
  | [] => Ok (class_stack, self)
  | child :: cs' =>
      '(class_stack, self) ← _walk_and_index source_bytes child pkg class_stack self;
      walk_children cs' class_stack self
  end.
End WalkChildren.

(** [if current_package: self.packages.add(current_package)] *)
Definition add_package (current_package : option string) (self : JavaIndexer)
    : JavaIndexer :=
  match current_package with
  | Some p =>
      if truthy current_package
      then mkJavaIndexer ({[p]} ∪ packages self) (classes self)
      else self
  | None => self
  end.

(** [index_source] once the source is parsed: [root] is [tree.root_node]. *)
Definition index_root (source_bytes : string) (root : Node) (self : JavaIndexer)
    : Result JavaIndexer :=
  let current_package := _find_package source_bytes root in
  let self := add_package current_package self in
  let class_stack : list Frame := [] in
  '(_, self) ← _walk_and_index source_bytes root current_package class_stack self;
  Ok self.

(** [JavaIndexer.index_source], over the external parser [parse]
    ([self.parser.parse(...)] followed by [.root_node]). *)
Definition index_source (parse : string → Node) (source : string)
    (self : JavaIndexer) : Result JavaIndexer :=
  let source_bytes := source in
  index_root source_bytes (parse source) self.

(** ** inputs/directory_scanning.py *)

(** The names bound in the module [directory_scanning]: its two imports
    ([os], [JavaIndexer]) and its two functions. *)
Definition module_globals : list string :=
  ["os"; "JavaIndexer"; "read_text"; "index_directory"].

(** The builtins the module uses. *)
Definition builtins : list string := ["open"; "print"; "Exception"].

(** Evaluation of a global name: a name that is neither bound in the
    module nor a builtin raises [NameError]. *)
Definition load_name (x : string) : Result unit :=
  if bool_decide (x ∈ module_globals ++ builtins) then Ok tt
  else Raise (NameError x).

Definition endswith (s suffix : string) : bool :=
  bool_decide
    (String.substring (String.length s - String.length suffix)
       (String.length suffix) s = suffix).

(** [os.path.join(dirpath, fn)] on a POSIX system, for a directory path
    that does not end in a separator. *)
Definition path_join (dirpath fn : string) : string := dirpath +:+ "/" +:+ fn.

Definition exn_str (e : Exn) : string :=
  match e with
  | KeyError k => "'" +:+ k +:+ "'"
  | IndexError => "pop from empty list"
  | OSError msg => msg
  | NameError x => "name '" +:+ x +:+ "' is not defined"
  end.

(** The state of a batch: the indexer and the lines written to the
    standard error stream. *)
Definition Batch : Type := JavaIndexer * list string.

Section Scanning.
(** The parser, and the file system: what [read_text] returns for a
    path. *)
Variables (parse : string → Node) (read_text : string → Result string).

(** The body of [for fn in filenames], for one file name. The handler
    builds the message, then evaluates [sys.stderr] for the keyword
    argument of [print]. A call of [index_source] that raises is taken to
    leave the indexer as it was; in this model, where the recursion limit
    of the interpreter is left out, [index_root_walk] below shows that it
    does not raise. *)
Definition index_file (dirpath fn : string) (b : Batch) : Result Batch :=
  if endswith fn ".java" then
    let full := path_join dirpath fn in
    match (src ← read_text full; index_source parse src b.1) with
    | Ok indexer => Ok (indexer, b.2)
    | Raise e =>
        (* print(f"[WARN] Failed to index {full}: {e}", file=sys.stderr) *)
        let line := "[WARN] Failed to index " +:+ full +:+ ": " +:+ exn_str e in
        _ ← load_name "sys";
        Ok (b.1, b.2 ++ [line])
    end
  else Ok b.

Fixpoint index_files (dirpath : string) (filenames : list string) (b : Batch)
    : Result Batch :=
  match filenames with
  | [] => Ok b
  | fn :: fns => b ← index_file dirpath fn b; index_files dirpath fns b
  end.

(** [index_directory], over the triples [os.walk(root_dir)] yields
    (their directory names are not used). *)
Fixpoint index_directory (walk : list (string * list string)) (b : Batch)
    : Result Batch :=
  match walk with
  | [] => Ok b
  | (dirpath, filenames) :: rest =>
      b ← index_files dirpath filenames b; index_directory rest b
  end.
End Scanning.

(** ** Loading the grammar, and main.py *)

(** The index [JavaIndexer.__init__] starts with. *)
Definition empty_indexer_init : JavaIndexer := mkJavaIndexer ∅ ∅.

(** What [load_java_language] can raise: its own [RuntimeError], or
    whatever the constructor [Language(so_path, "java")] raises. *)
Inductive LoadExn : Type :=
| RuntimeError (msg : string)
| LibraryError (e : Exn).

Definition grammar_message : string :=
  "Could not load Java grammar.
- Install `tree_sitter_languages` (pip install tree_sitter_languages), OR
- Build a shared library and set TS_LANGUAGE_SO to its path.
See code comments for build instructions.".

Section Loading.
(** The language objects, and the environment of [load_java_language]:
    [get_language] of the package [tree_sitter_languages] ([None] when
    the import or the call raises), the process environment, the test
    [os.path.exists], and the constructor [Language]. *)
Variable Language : Type.
Variables (get_language : string → option Language)
  (environ : gmap string string) (path_exists : string → bool)
  (load_library : string → string → Exn + Language).

Definition load_java_language : LoadExn + Language :=
  match get_language "java" with
  | Some language => inr language
  | None =>
      let so_path := environ !! "TS_LANGUAGE_SO" in
      match so_path with
      | Some path =>
          if negb (truthy so_path) || negb (path_exists path)
          then inl (RuntimeError grammar_message)
          else match load_library path "java" with
               | inl e => inl (LibraryError e)
               | inr language => inr language
               end
      | None => inl (RuntimeError grammar_message)
      end
  end.
End Loading.

(** What escapes from [main]: what the loader raises, what building the
    parser raises (with its message), what the indexing raises, and the
    [AttributeError] of an attribute lookup. *)
Inductive MainExn : Type :=
| LoadRaised (e : LoadExn)
| ParserRaised (msg : string)
| Raised (e : Exn)
| AttributeError (cls attr : string).

(** The attributes of a [JavaIndexer]: those [__init__] sets and the
    methods of the class. *)
Definition JavaIndexer_attributes : list string :=
  ["language"; "parser"; "packages"; "classes";
   "__init__"; "parse"; "index_source"; "_find_package"; "_walk_and_index";
   "_fqcn"; "_index_method"; "_collect_calls_in_method"].

(** [indexer.attr] *)
Definition getattr_indexer (attr : string) : MainExn + unit :=
  if bool_decide (attr ∈ JavaIndexer_attributes) then inr tt
  else inl (AttributeError "JavaIndexer" attr).

Section Main.
(** The environment of [main]: that of [load_java_language]; the parser
    of a language, as [Parser()] followed by [set_language] builds it, or
    the message of what they raise; [os.walk], [read_text], the two
    renderers of [outputs/output.py] (the lines [print_summary] prints,
    the string [to_json] returns) and the sample source of main.py. *)
Variable Language : Type.
Variables (get_language : string → option Language)
  (environ : gmap string string) (path_exists : string → bool)
  (load_library : string → string → Exn + Language)
  (new_parser : Language → string + (string → Node))
  (os_walk : string → list (string * list string))
  (read_text : string → Result string)
  (print_summary : JavaIndexer → list string)
  (to_json : JavaIndexer → string)
  (SAMPLE_JAVA : string).

(** [JavaIndexer()]: the parser of the new indexer and its empty index. *)
Definition JavaIndexer_init : MainExn + ((string → Node) * JavaIndexer) :=
  match load_java_language Language get_language environ path_exists load_library with
  | inl e => inl (LoadRaised e)
  | inr language =>
      match new_parser language with
      | inl msg => inl (ParserRaised msg)
      | inr parse => inr (parse, empty_indexer_init)
      end
  end.

(** The indexing step of [main]: the directory named on the command line
    if there is one, the sample source otherwise. [argv] is [sys.argv]. *)
Definition main_index (parse : string → Node) (argv : list string)
    (indexer : JavaIndexer) : Result Batch :=
  match argv with
  | _ :: root :: _ => index_directory parse read_text (os_walk root) (indexer, [])
  | _ => indexer ← index_source parse SAMPLE_JAVA indexer; Ok (indexer, [])
  end.

(** [main]: what it prints on the standard output, one entry for each
    call of [print], and how it ends. *)
Definition main (argv : list string) : list string * (MainExn + unit) :=
  match JavaIndexer_init with
  | inl e => ([], inl e)
  | inr (parse, indexer) =>
      match main_index parse argv indexer with
      | Raise e => ([], inl (Raised e))
      | Ok (indexer, _) =>
          let out := print_summary indexer ++ ["
=== JSON ==="; to_json indexer] in
          (out,
           match getattr_indexer "query_imports" with
           | inl e => inl e
           | inr _ =>
               match getattr_indexer "query_method" with
               | inl e => inl e
               | inr _ =>
                   match getattr_indexer "query_new_arraylist" with
                   | inl e => inl e
                   | inr _ =>
                       match getattr_indexer "query_add_method_calls" with
                       | inl e => inl e
                       | inr _ => inr tt
                       end
                   end
               end
           end)
      end
  end.
End Main.

(** ** Sample compilation units

    Parse trees of one-line sources, as the Java grammar of tree-sitter
    shapes them: every node starts on line 0, at the column of its first
    byte. *)

Definition nd (ty : string) (f : option string) (sb eb : nat) (cs : list Node) : Node :=
  mkNode ty f sb eb (0, sb) cs.

Definition tok (ty : string) (f : option string) (sb eb : nat) : Node :=
  nd ty f sb eb [].

(** A class with one method that calls [a] and then [b]. *)
Definition unit_two_calls_src : string := "class C{void m(){a();b();}}".

Definition method_m : Node :=
  nd "method_declaration" None 8 26 [
    tok "void_type" (Some "type") 8 12;
    tok "identifier" (Some "name") 13 14;
    nd "formal_parameters" (Some "parameters") 14 16 [
      tok "(" None 14 15;
      tok ")" None 15 16];
    nd "block" (Some "body") 16 26 [
      tok "{" None 16 17;
      nd "expression_statement" None 17 21 [
        nd "method_invocation" None 17 20 [
          tok "identifier" (Some "name") 17 18;
          nd "argument_list" (Some "arguments") 18 20 [
            tok "(" None 18 19;
            tok ")" None 19 20]];
        tok ";" None 20 21];
      nd "expression_statement" None 21 25 [
        nd "method_invocation" None 21 24 [
          tok "identifier" (Some "name") 21 22;
          nd "argument_list" (Some "arguments") 22 24 [
            tok "(" None 22 23;
            tok ")" None 23 24]];
        tok ";" None 24 25];
      tok "}" None 25 26]].

Definition class_C : Node :=
  nd "class_declaration" None 0 27 [
    tok "class" None 0 5;
    tok "identifier" (Some "name") 6 7;
    nd "class_body" (Some "body") 7 27 [
      tok "{" None 7 8;
      method_m;
      tok "}" None 26 27]].

Definition unit_two_calls : Node :=
  nd "program" None 0 27 [
    class_C].

(** Two declarations of a class [A] in one unit. *)
Definition unit_duplicate_src : string := "class A{void f(){}}class A{void g(){}}".

Definition method_f : Node :=
  nd "method_declaration" None 8 18 [
    tok "void_type" (Some "type") 8 12;
    tok "identifier" (Some "name") 13 14;
    nd "formal_parameters" (Some "parameters") 14 16 [
      tok "(" None 14 15;
      tok ")" None 15 16];
    nd "block" (Some "body") 16 18 [
      tok "{" None 16 17;
      tok "}" None 17 18]].

Definition method_g : Node :=
  nd "method_declaration" None 27 37 [
    tok "void_type" (Some "type") 27 31;
    tok "identifier" (Some "name") 32 33;
    nd "formal_parameters" (Some "parameters") 33 35 [
      tok "(" None 33 34;
      tok ")" None 34 35];
    nd "block" (Some "body") 35 37 [
      tok "{" None 35 36;
      tok "}" None 36 37]].

Definition class_A_first : Node :=
  nd "class_declaration" None 0 19 [
    tok "class" None 0 5;
    tok "identifier" (Some "name") 6 7;
    nd "class_body" (Some "body") 7 19 [
      tok "{" None 7 8;
      method_f;
      tok "}" None 18 19]].

Definition class_A_second : Node :=
  nd "class_declaration" None 19 38 [
    tok "class" None 19 24;
    tok "identifier" (Some "name") 25 26;
    nd "class_body" (Some "body") 26 38 [
      tok "{" None 26 27;
      method_g;
      tok "}" None 37 38]].

Definition unit_duplicate : Node :=
  nd "program" None 0 38 [
    class_A_first;
    class_A_second].

(** A method whose body declares a local class with a method of its own. *)
Definition unit_local_class_src : string := "class O{void m(){class L{void n(){x();}}}}".

Definition call_x : Node :=
  nd "method_invocation" None 34 37 [
    tok "identifier" (Some "name") 34 35;
    nd "argument_list" (Some "arguments") 35 37 [
      tok "(" None 35 36;
      tok ")" None 36 37]].

Definition method_n : Node :=
  nd "method_declaration" None 25 39 [
    tok "void_type" (Some "type") 25 29;
    tok "identifier" (Some "name") 30 31;
    nd "formal_parameters" (Some "parameters") 31 33 [
      tok "(" None 31 32;
      tok ")" None 32 33];
    nd "block" (Some "body") 33 39 [
      tok "{" None 33 34;
      nd "expression_statement" None 34 38 [
        call_x;
        tok ";" None 37 38];
      tok "}" None 38 39]].

Definition class_L : Node :=
  nd "class_declaration" None 17 40 [
    tok "class" None 17 22;
    tok "identifier" (Some "name") 23 24;
    nd "class_body" (Some "body") 24 40 [
      tok "{" None 24 25;
      method_n;
      tok "}" None 39 40]].

Definition method_outer : Node :=
  nd "method_declaration" None 8 41 [
    tok "void_type" (Some "type") 8 12;
    tok "identifier" (Some "name") 13 14;
    nd "formal_parameters" (Some "parameters") 14 16 [
      tok "(" None 14 15;
      tok ")" None 15 16];
    nd "block" (Some "body") 16 41 [
      tok "{" None 16 17;
      class_L;
      tok "}" None 40 41]].

Definition class_O : Node :=
  nd "class_declaration" None 0 42 [
    tok "class" None 0 5;
    tok "identifier" (Some "name") 6 7;
    nd "class_body" (Some "body") 7 42 [
      tok "{" None 7 8;
      method_outer;
      tok "}" None 41 42]].

Definition unit_local_class : Node :=
  nd "program" None 0 42 [
    class_O].

(** A method that constructs an object. *)
Definition unit_construction_src : string := "class U{void m(){new Foo(bar);}}".

Definition new_Foo : Node :=
  nd "object_creation_expression" None 17 29 [
    tok "new" None 17 20;
    tok "type_identifier" (Some "type") 21 24;
    nd "argument_list" (Some "arguments") 24 29 [
      tok "(" None 24 25;
      tok "identifier" None 25 28;
      tok ")" None 28 29]].

Definition method_new : Node :=
  nd "method_declaration" None 8 31 [
    tok "void_type" (Some "type") 8 12;
    tok "identifier" (Some "name") 13 14;
    nd "formal_parameters" (Some "parameters") 14 16 [
      tok "(" None 14 15;
      tok ")" None 15 16];
    nd "block" (Some "body") 16 31 [
      tok "{" None 16 17;
      nd "expression_statement" None 17 30 [
        new_Foo;
        tok ";" None 29 30];
      tok "}" None 30 31]].

Definition unit_construction : Node :=
  nd "program" None 0 32 [
    nd "class_declaration" None 0 32 [
      tok "class" None 0 5;
      tok "identifier" (Some "name") 6 7;
      nd "class_body" (Some "body") 7 32 [
        tok "{" None 7 8;
        method_new;
        tok "}" None 31 32]]].

(** A unit with a package declaration. In the Java grammar the name of a
    package declaration is a child without a field name. *)
Definition unit_package_src : string := "package p;class A{}".

Definition package_p : Node :=
  nd "package_declaration" None 0 10 [
    tok "package" None 0 7;
    tok "identifier" None 8 9;
    tok ";" None 9 10].

Definition class_A : Node :=
  nd "class_declaration" None 10 19 [
    tok "class" None 10 15;
    tok "identifier" (Some "name") 16 17;
    nd "class_body" (Some "body") 17 19 [
      tok "{" None 17 18;
      tok "}" None 18 19]].

Definition unit_package : Node :=
  nd "program" None 0 19 [
    package_p;
    class_A].

(** A method with one parameter. In the Java grammar the parameters of a
    method are nodes of type [formal_parameter] (or [spread_parameter]). *)
Definition unit_parameter_src : string := "class C{void m(int a){}}".

Definition parameter_int_a : Node :=
  nd "formal_parameter" None 15 20 [
    nd "integral_type" (Some "type") 15 18 [
      tok "int" None 15 18];
    tok "identifier" (Some "name") 19 20].

Definition method_with_parameter : Node :=
  nd "method_declaration" None 8 23 [
    tok "void_type" (Some "type") 8 12;
    tok "identifier" (Some "name") 13 14;
    nd "formal_parameters" (Some "parameters") 14 21 [
      tok "(" None 14 15;
      parameter_int_a;
      tok ")" None 20 21];
    nd "block" (Some "body") 21 23 [
      tok "{" None 21 22;
      tok "}" None 22 23]].

Definition unit_parameter : Node :=
  nd "program" None 0 24 [
    nd "class_declaration" None 0 24 [
      tok "class" None 0 5;
      tok "identifier" (Some "name") 6 7;
      nd "class_body" (Some "body") 7 24 [
        tok "{" None 7 8;
        method_with_parameter;
        tok "}" None 23 24]]].





(** An interface with a method whose body declares a local class, and
    the same interface without the method. *)
Definition unit_interface_src : string := "interface I{void m(){class L{void n(){x();}}}}".

Definition local_class_L : Node :=
  nd "class_declaration" None 21 44 [
    tok "class" None 21 26;
    tok "identifier" (Some "name") 27 28;
    nd "class_body" (Some "body") 28 44 [
      tok "{" None 28 29;
      nd "method_declaration" None 29 43 [
        tok "void_type" (Some "type") 29 33;
        tok "identifier" (Some "name") 34 35;
        nd "formal_parameters" (Some "parameters") 35 37 [
          tok "(" None 35 36;
          tok ")" None 36 37];
        nd "block" (Some "body") 37 43 [
          tok "{" None 37 38;
          nd "expression_statement" None 38 42 [
            nd "method_invocation" None 38 41 [
              tok "identifier" (Some "name") 38 39;
              nd "argument_list" (Some "arguments") 39 41 [
                tok "(" None 39 40;
                tok ")" None 40 41]];
            tok ";" None 41 42];
          tok "}" None 42 43]];
      tok "}" None 43 44]].

Definition interface_method : Node :=
  nd "method_declaration" None 12 45 [
    tok "void_type" (Some "type") 12 16;
    tok "identifier" (Some "name") 17 18;
    nd "formal_parameters" (Some "parameters") 18 20 [
      tok "(" None 18 19;
      tok ")" None 19 20];
    nd "block" (Some "body") 20 45 [
      tok "{" None 20 21;
      local_class_L;
      tok "}" None 44 45]].

Definition interface_I : Node :=
  nd "interface_declaration" None 0 46 [
    tok "interface" None 0 9;
    tok "identifier" (Some "name") 10 11;
    nd "interface_body" (Some "body") 11 46 [
      tok "{" None 11 12;
      interface_method;
      tok "}" None 45 46]].

Definition unit_interface : Node :=
  nd "program" None 0 46 [
    interface_I].

Definition unit_interface_empty_src : string := "interface I{}".

Definition unit_interface_empty : Node :=
  nd "program" None 0 13 [
    nd "interface_declaration" None 0 13 [
      tok "interface" None 0 9;
      tok "identifier" (Some "name") 10 11;
      nd "interface_body" (Some "body") 11 13 [
        tok "{" None 11 12;
        tok "}" None 12 13]]].

Definition empty_indexer : JavaIndexer := mkJavaIndexer ∅ ∅.

(** * Notions used in the statements *)

(** The order in which the loop visits the nodes of a tree: a node first,
    then its children from the last to the first, each with its subtree. *)
Fixpoint visit_order (n : Node) : list Node :=
  match n with
  | mkNode _ _ _ _ _ cs =>
      n :: (fix go (l : list Node) : list Node :=
              match l with
              | [] => []
              | c :: l' => go l' ++ visit_order c
              end) cs
  end.

Fixpoint visit_order_list (l : list Node) : list Node :=
  match l with
  | [] => []
  | c :: l' => visit_order_list l' ++ visit_order c
  end.

(** Source order: a node first, then its children from the first to the
    last, each with its subtree. *)
Fixpoint preorder (n : Node) : list Node :=
  match n with
  | mkNode _ _ _ _ _ cs => n :: flat_map preorder cs
  end.

(** The frame [_walk_and_index] pushes for a node, if it pushes one. *)
Definition own_frame (src : string) (node : Node) : option Frame :=
  match class_name_node node with
  | Some cn => Some (node_text src cn, (node_point node).1, (node_point node).2)
  | None => None
  end.

(** What [_walk_and_index] does at a node before it loops over the
    children: push and register for a class, index for a method. *)
Definition enter (src : string) (pkg : option string) (node : Node)
    (class_stack : list Frame) (self : JavaIndexer)
    : Result (list Frame * JavaIndexer) :=
  match own_frame src node with
  | Some fr =>
      let class_stack := class_stack ++ [fr] in
      let fq := _fqcn pkg (frame_names class_stack) in
      match classes self !! fq with
      | Some _ => Ok (class_stack, self)
      | None =>
          Ok (class_stack,
              mkJavaIndexer (packages self)
                (<[fq := mkClassInfo fr.1.1 fq fr.1.2 fr.2 ∅]> (classes self)))
      end
  | None =>
      self ← (if is_method_like node
              then _index_method src node pkg class_stack self
              else Ok self);
      Ok (class_stack, self)
  end.

(** What it does after the loop: pop for a class. *)
Definition leave (src : string) (node : Node) (class_stack : list Frame)
    (self : JavaIndexer) : Result (list Frame * JavaIndexer) :=
  match own_frame src node with
  | Some _ =>
      match list_pop class_stack with
      | Some (class_stack, _) => Ok (class_stack, self)
      | None => Raise IndexError
      end
  | None => Ok (class_stack, self)
  end.

(** A class keeps its identity and only gains methods: every overload
    list keeps what it held, in front. *)
Definition class_extends (ci ci' : ClassInfo) : Prop :=
  simple_name ci' = simple_name ci ∧ fqcn ci' = fqcn ci ∧
  class_line ci' = class_line ci ∧ class_col ci' = class_col ci ∧
  ∀ m, (methods ci !!! m) `prefix_of` (methods ci' !!! m).

Definition grows (self self' : JavaIndexer) : Prop :=
  packages self' = packages self ∧
  ∀ k ci, classes self !! k = Some ci →
    ∃ ci', classes self' !! k = Some ci' ∧ class_extends ci ci'.

(** The class named by the stack is registered (the lookup
    [self.classes[fqcn]] of [_index_method] finds it). *)
Definition registered (pkg : option string) (class_stack : list Frame)
    (self : JavaIndexer) : Prop :=
  class_stack = [] ∨
  is_Some (classes self !! _fqcn pkg (frame_names class_stack)).

(** The method record [_index_method] builds for a declaration: it
    depends on the source and on the node only. *)
Definition method_info_of (src : string) (node : Node) : MethodInfo :=
  mkMethodInfo
    (match child_by_field_name node "name" with
     | Some n => node_text src n
     | None => "<anonymous>"
     end)
    (match child_by_field_name node "parameters" with
     | Some pn => collect_params src (children pn) []
     | None => []
     end)
    (if bool_decide (type node = "method_declaration") then
       match child_by_field_name node "type" with
       | Some ret_node => Some (node_text src ret_node)
       | None => None
       end
     else None)
    (node_point node).1 (node_point node).2
    (flat_map (node_calls src) (visit_order node)).

(** [cls.methods.setdefault(name, []).append(mi)] on the class [fq]. *)
Definition append_method (fq : string) (cls : ClassInfo) (mi : MethodInfo)
    (self : JavaIndexer) : JavaIndexer :=
  mkJavaIndexer (packages self)
    (<[fq := mkClassInfo (simple_name cls) (fqcn cls) (class_line cls) (class_col cls)
               (<[name mi := (methods cls !!! name mi) ++ [mi]]> (methods cls))]>
       (classes self)).

(** The node found by following child indices from a node. *)
Fixpoint node_at (n : Node) (path : list nat) : option Node :=
  match path with
  | [] => Some n
  | i :: p =>
      match children n !! i with
      | Some c => node_at c p
      | None => None
      end
  end.

(** The frames of the named class declarations met on the way to the
    node at [path], that node excluded, from the outermost inwards. *)
Fixpoint enclosing (src : string) (n : Node) (path : list nat) : list Frame :=
  match path with
  | [] => []
  | i :: p =>
      option_list (own_frame src n) ++
      match children n !! i with
      | Some c => enclosing src c p
      | None => []
      end
  end.

(** [reaches src pkg n stk self p m stkm selfm]: the call of
    [_walk_and_index] on [n] with stack [stk] and registry [self] leads,
    at the end of [path], to a call on [m] with stack [stkm] and registry
    [selfm]. The call on the child [i] of a node happens after the node
    was entered and the children before [i] were walked. *)
Inductive reaches (src : string) (pkg : option string) :
    Node → list Frame → JavaIndexer → list nat →
    Node → list Frame → JavaIndexer → Prop :=
| reaches_here n stk self :
    reaches src pkg n stk self [] n stk self
| reaches_child n stk self stk1 self1 i c stk2 self2 p m stkm selfm :
    enter src pkg n stk self = Ok (stk1, self1) →
    children n !! i = Some c →
    walk_children src pkg (take i (children n)) stk1 self1 = Ok (stk2, self2) →
    reaches src pkg c stk2 self2 p m stkm selfm →
    reaches src pkg n stk self (i :: p) m stkm selfm.

(** The overloads the registry holds for a method name of a class. *)
Definition overloads (self : JavaIndexer) (k nm : string) : list MethodInfo :=
  match classes self !! k with
  | Some ci => methods ci !!! nm
  | None => []
  end.

(** Every class is stored under its own [fqcn]. *)
Definition well_keyed (self : JavaIndexer) : Prop :=
  ∀ k ci, classes self !! k = Some ci → fqcn ci = k.

(** The prefix of a fully-qualified name, as the specification words it:
    [(package + ".") if package else ""]. *)
Definition package_prefix (package : option string) : string :=
  match package with
  | None => ""
  | Some "" => ""
  | Some p => p +:+ "."
  end.

(** The token of a parameter, as the specification words it. *)
Definition spec_param_token (src : string) (p : Node) : string :=
  from_option (node_text src) "?" (child_by_field_name p "type") +:+ " " +:+
  from_option (node_text src) "param" (child_by_field_name p "name").

(** The call record of a construction expression, as the specification
    words it: the constructor tag with the text of the constructed type,
    no receiver, the start position of the expression. *)
Definition constructor_record (src : string) (n : Node) : MethodCall :=
  mkMethodCall
    ("<init:" +:+ from_option (node_text src) "<anon>" (child_by_field_name n "type")
       +:+ ">")
    None (start_point n).1 (start_point n).2.

(** The state in which the walk of [unit_two_calls] reaches [method_m]. *)
Definition class_C_registered : JavaIndexer :=
  mkJavaIndexer ∅ (<["C" := mkClassInfo "C" "C" 0 0 ∅]> ∅).

(** The registry after the walk of the first declaration of [A] in
    [unit_duplicate]. *)
Definition class_A_indexed : JavaIndexer :=
  mkJavaIndexer ∅
    (<["A" := mkClassInfo "A" "A" 0 0
                (<["f" := [method_info_of unit_duplicate_src method_f]]> ∅)]> ∅).

(** A directory [src] with two files, the first of which cannot be read. *)
Definition unreadable_first (path : string) : Result string :=
  if bool_decide (path = "src/A.java")
  then Raise (OSError "[Errno 13] Permission denied: 'src/A.java'")
  else Ok "class B{}".

(** A node for which the collector appends a record. *)
Definition is_call_node (n : Node) : bool :=
  bool_decide (type n = "method_invocation")
  || bool_decide (type n = "object_creation_expression").

(** The call record of an invocation: the text of the [name] field or
    ["<unknown>"], the text of the [object] field if there is one, the
    start position of the invocation. *)
Definition invocation_record (src : string) (n : Node) : MethodCall :=
  mkMethodCall
    (from_option (node_text src) "<unknown>" (child_by_field_name n "name"))
    (node_text src <$> child_by_field_name n "object")
    (start_point n).1 (start_point n).2.

(** The unit has a class declaration with a [name] field for which the
    code builds the key [k]: the prefix made from what [_find_package]
    returns, then the names of the frames of the enclosing nodes (those
    of the enclosing class declarations with a [name] field, and of no
    other kind of declaration) and its own. *)
Definition declares_class (src : string) (root : Node) (k : string) : Prop :=
  ∃ p n cn, node_at root p = Some n ∧ type n = "class_declaration" ∧
    child_by_field_name n "name" = Some cn ∧
    k = package_prefix (_find_package src root) +:+
        String.concat "." (frame_names (enclosing src root p)
                             ++ [node_text src cn]).

(** The method records a unit files in the class [k] under the name
    [nm], in document order: a declaration before what it contains, the
    children of a node from the first to the last. [stk] is the nesting
    stack at the node; a declaration under an empty stack files nothing. *)
Fixpoint appended (src : string) (pkg : option string) (k nm : string)
    (n : Node) (stk : list Frame) {struct n} : list MethodInfo :=
  match n with
  | mkNode _ _ _ _ _ cs =>
      match own_frame src n with
      | Some fr => flat_map (λ c, appended src pkg k nm c (stk ++ [fr])) cs
      | None =>
          (if is_method_like n
              && bool_decide (stk ≠ [])
              && bool_decide (_fqcn pkg (frame_names stk) = k)
              && bool_decide (name (method_info_of src n) = nm)
           then [method_info_of src n] else [])
          ++ flat_map (λ c, appended src pkg k nm c stk) cs
      end
  end.

(** The listing of a directory, with the [.java] files only. *)
Definition java_files (walk : list (string * list string))
    : list (string * list string) :=
  map (λ e, (e.1, filter (λ fn, endswith fn ".java" = true) e.2)) walk.

(** Every [.java] file of the listing can be read. *)
Definition all_readable (read_text : string → Result string)
    (walk : list (string * list string)) : Prop :=
  ∀ d fns fn, (d, fns) ∈ walk → fn ∈ fns → endswith fn ".java" = true →
    ∃ src, read_text (path_join d fn) = Ok src.

(** The registries that indexing [unit_two_calls] and
    [unit_construction] from an empty registry gives, in one pass, in two
    passes over the first unit, and over both units. *)
Definition two_calls_indexed : JavaIndexer :=
  mkJavaIndexer ∅
    (<["C" := mkClassInfo "C" "C" 0 0
                (<["m" := [method_info_of unit_two_calls_src method_m]]> ∅)]> ∅).

Definition two_calls_indexed_twice : JavaIndexer :=
  mkJavaIndexer ∅
    (<["C" := mkClassInfo "C" "C" 0 0
                (<["m" := [method_info_of unit_two_calls_src method_m;
                           method_info_of unit_two_calls_src method_m]]> ∅)]> ∅).

Definition construction_indexed : JavaIndexer :=
  mkJavaIndexer ∅
    (<["U" := mkClassInfo "U" "U" 0 0
                (<["m" := [method_info_of unit_construction_src method_new]]> ∅)]> ∅).

Definition both_indexed : JavaIndexer :=
  mkJavaIndexer ∅
    (<["U" := mkClassInfo "U" "U" 0 0
                (<["m" := [method_info_of unit_construction_src method_new]]> ∅)]>
       (<["C" := mkClassInfo "C" "C" 0 0
                   (<["m" := [method_info_of unit_two_calls_src method_m]]> ∅)]> ∅)).


(** No node of the subtree is a class declaration for which
    [_walk_and_index] pushes a frame. *)
Fixpoint declares_no_class (n : Node) : bool :=
  match n with
  | mkNode _ _ _ _ _ cs =>
      match class_name_node n with
      | Some _ => false
      | None => forallb declares_no_class cs
      end
  end.

(** The package a unit declares, read off the tree as the grammar shapes
    it: the text of the identifier (or scoped identifier) child of the
    first package declaration among the children of the root. *)
Definition declared_package (src : string) (root : Node) : option string :=
  match List.find (λ c, bool_decide (type c = "package_declaration"))
          (children root) with
  | Some pd =>
      match List.find (λ c, bool_decide (type c = "identifier")
                            || bool_decide (type c = "scoped_identifier"))
              (children pd) with
      | Some nm => Some (node_text src nm)
      | None => None
      end
  | None => None
  end.

(** The parameters of a method as the grammar shapes them: the children
    of type [formal_parameter] or [spread_parameter] of the [parameters]
    field. *)
Definition grammar_parameters (node : Node) : list Node :=
  match child_by_field_name node "parameters" with
  | Some pn =>
      filter (λ p, type p = "formal_parameter" ∨ type p = "spread_parameter")
        (children pn)
  | None => []
  end.

(** * Properties *)

(** ** The worklist loop *)

Lemma collect_loop_nil src calls : collect_loop src [] calls = calls.
Proof. by rewrite collect_loop_equation_1. Qed.

Lemma collect_loop_snoc src stack n calls :
  collect_loop src (stack ++ [n]) calls =
  collect_loop src (stack ++ children n) (calls ++ node_calls src n).
Proof.
  rewrite collect_loop_equation_1. unfold inspect.
  generalize (@eq_refl _ (list_pop (stack ++ [n]))).
  generalize (list_pop (stack ++ [n])) at 2 4.
  intros o e.
  assert (o = Some (stack, n)) as -> by (by rewrite <- e, list_pop_snoc).
  reflexivity.
Qed.

Lemma visit_order_eq n : visit_order n = n :: visit_order_list (children n).
Proof. by destruct n. Qed.

Lemma preorder_eq n : preorder n = n :: flat_map preorder (children n).
Proof. by destruct n. Qed.

Lemma visit_order_list_snoc l c :
  visit_order_list (l ++ [c]) = visit_order c ++ visit_order_list l.
Proof.
  induction l as [|d l IH]; simpl; [by rewrite app_nil_r|].
  by rewrite IH, app_assoc.
Qed.

Lemma visit_order_list_rev l :
  visit_order_list l = flat_map visit_order (rev l).
Proof.
  induction l as [|c l IH]; simpl; [done|].
  by rewrite flat_map_app, IH; simpl; rewrite app_nil_r.
Qed.

Lemma collect_loop_worklist src l :
  Forall (λ n, ∀ stack calls,
            collect_loop src (stack ++ [n]) calls =
            collect_loop src stack
              (calls ++ flat_map (node_calls src) (visit_order n))) l →
  ∀ stack calls,
    collect_loop src (stack ++ l) calls =
    collect_loop src stack
      (calls ++ flat_map (node_calls src) (visit_order_list l)).
Proof.
  induction l as [|c l IH] using rev_ind; intros Hall stack calls.
  - simpl. by rewrite !app_nil_r.
  - apply Forall_app in Hall as [Hl Hc]. apply List.Forall_inv in Hc.
    rewrite app_assoc, Hc, (IH Hl).
    by rewrite visit_order_list_snoc, flat_map_app, app_assoc.
Qed.

Lemma collect_loop_node src n : ∀ stack calls,
  collect_loop src (stack ++ [n]) calls =
  collect_loop src stack (calls ++ flat_map (node_calls src) (visit_order n)).
Proof.
  induction n as [ty f sb eb sp cs IH] using Node_ind_nested.
  intros stack calls. rewrite collect_loop_snoc.
  rewrite (collect_loop_worklist src _ IH).
  rewrite visit_order_eq. simpl. by rewrite <- app_assoc.
Qed.

(** The loop terminates with the records of the nodes of the subtree, in
    the order of [visit_order], appended to the calls it started with. *)
Lemma collect_calls_spec src n mi :
  calls (_collect_calls_in_method src n mi) =
  calls mi ++ flat_map (node_calls src) (visit_order n).
Proof.
  unfold _collect_calls_in_method. cbn [calls].
  pose proof (collect_loop_node src n [] (calls mi)) as E. cbn [app] in E.
  by rewrite E, collect_loop_nil.
Qed.

(** Both orders enumerate the same nodes. *)
Lemma visit_order_list_perm l :
  Forall (λ n, visit_order n ≡ₚ preorder n) l →
  visit_order_list l ≡ₚ flat_map preorder l.
Proof.
  induction 1 as [|c l Hc _ IH]; simpl; [done|].
  by rewrite IH, Hc, (comm (++)).
Qed.

Lemma visit_order_perm n : visit_order n ≡ₚ preorder n.
Proof.
  induction n as [ty f sb eb sp cs IH] using Node_ind_nested.
  rewrite visit_order_eq, preorder_eq. simpl.
  by rewrite (visit_order_list_perm _ IH).
Qed.

(** ** The walk, node by node *)

Lemma walk_eq src pkg node class_stack self :
  _walk_and_index src node pkg class_stack self =
  '(stk1, self1) ← enter src pkg node class_stack self;
  '(stk2, self2) ← walk_children src pkg (children node) stk1 self1;
  leave src node stk2 self2.
Proof.
  destruct node as [ty f sb eb sp cs].
  unfold enter, leave, own_frame. cbn [_walk_and_index].
  fold (walk_children src pkg).
  destruct (class_name_node _) as [cn|]; cbn [node_point fst snd children start_point].
  - destruct (classes self !! _) ; reflexivity.
  - destruct (is_method_like _); [destruct (_index_method _ _ _ _ _)|]; cbn;
      try reflexivity; by destruct (walk_children _ _ _ _ _) as [[??]|].
Qed.

Lemma walk_children_app src pkg l1 l2 stk self :
  walk_children src pkg (l1 ++ l2) stk self =
  '(stk1, self1) ← walk_children src pkg l1 stk self;
  walk_children src pkg l2 stk1 self1.
Proof.
  revert stk self. induction l1 as [|c l1 IH]; intros stk self; [done|].
  cbn [walk_children app].
  destruct (_walk_and_index src c pkg stk self) as [[stk' self']|e]; [|done].
  apply IH.
Qed.

(** ** Growth of the registry *)

Lemma class_extends_refl ci : class_extends ci ci.
Proof. by repeat split. Qed.

Lemma class_extends_trans c1 c2 c3 :
  class_extends c1 c2 → class_extends c2 c3 → class_extends c1 c3.
Proof.
  intros (A1&B1&C1&D1&E1) (A2&B2&C2&D2&E2). repeat split; try congruence.
  intros m. etrans; [apply E1|apply E2].
Qed.

Lemma grows_refl self : grows self self.
Proof. split; [done|]. intros k ci H. exists ci. split; [done|apply class_extends_refl]. Qed.

Lemma grows_trans s1 s2 s3 : grows s1 s2 → grows s2 s3 → grows s1 s3.
Proof.
  intros [P1 H1] [P2 H2]. split; [congruence|].
  intros k ci Hk. destruct (H1 _ _ Hk) as (c2 & Hk2 & E12).
  destruct (H2 _ _ Hk2) as (c3 & Hk3 & E23).
  exists c3. split; [done|]. by eapply class_extends_trans.
Qed.

Lemma grows_registered pkg stk s1 s2 :
  grows s1 s2 → registered pkg stk s1 → registered pkg stk s2.
Proof.
  intros [_ H] [->|[ci Hci]]; [by left|right].
  destruct (H _ _ Hci) as (ci' & -> & _). by eexists.
Qed.

Lemma index_method_empty src node pkg self :
  _index_method src node pkg [] self = Ok self.
Proof. reflexivity. Qed.

Lemma index_method_eq src node pkg stk self :
  stk ≠ [] →
  _index_method src node pkg stk self =
  match classes self !! _fqcn pkg (frame_names stk) with
  | Some cls =>
      Ok (append_method (_fqcn pkg (frame_names stk)) cls (method_info_of src node) self)
  | None => Raise (KeyError (_fqcn pkg (frame_names stk)))
  end.
Proof.
  intros Hne. destruct stk as [|fr stk]; [done|].
  unfold _index_method, append_method, method_info_of.
  cbn [node_point fst snd].
  destruct (classes self !! _) as [cls|]; [|done].
  unfold _collect_calls_in_method. cbn [name params return_type line col calls].
  pose proof (collect_loop_node src node [] []) as E. cbn [app] in E.
  rewrite E, collect_loop_nil. by rewrite lookup_total_alt.
Qed.

Lemma append_method_grows fq cls mi self :
  classes self !! fq = Some cls → grows self (append_method fq cls mi self).
Proof.
  intros Hfq. split; [done|]. intros k ci Hk. cbn.
  destruct (decide (fq = k)) as [->|Hne].
  - rewrite lookup_insert_eq. eexists. split; [done|].
    assert (ci = cls) as -> by congruence.
    repeat split. cbn. intros m.
    destruct (decide (name mi = m)) as [->|Hm].
    + rewrite lookup_total_insert_eq. by apply prefix_app_r.
    + by rewrite lookup_total_insert_ne.
  - rewrite lookup_insert_ne by done. exists ci. split; [done|apply class_extends_refl].
Qed.

Lemma index_method_ok src node pkg stk self :
  registered pkg stk self →
  ∃ self', _index_method src node pkg stk self = Ok self' ∧ grows self self'.
Proof.
  intros [->|[cls Hcls]].
  - exists self. split; [done|apply grows_refl].
  - destruct (decide (stk = [])) as [->|Hne].
    + exists self. split; [done|apply grows_refl].
    + rewrite (index_method_eq _ _ _ _ _ Hne), Hcls.
      eexists. split; [done|]. by apply append_method_grows.
Qed.

Lemma enter_ok src pkg node stk self :
  registered pkg stk self →
  ∃ self1, enter src pkg node stk self = Ok (stk ++ option_list (own_frame src node), self1)
    ∧ registered pkg (stk ++ option_list (own_frame src node)) self1
    ∧ grows self self1.
Proof.
  intros Hreg. unfold enter. destruct (own_frame src node) as [fr|].
  - change (option_list (Some fr)) with [fr]. destruct (classes self !! _) as [ci|] eqn:E.
    + exists self. split; [done|]. split; [right; by exists ci|apply grows_refl].
    + eexists. split; [done|]. split.
      * right. cbn. rewrite lookup_insert_eq. by eexists.
      * split; [done|]. intros k ci Hk. exists ci. split; [|apply class_extends_refl].
        cbn. rewrite lookup_insert_ne; [done|]. intros <-. congruence.
  - change (option_list (@None Frame)) with (@nil Frame).
    rewrite app_nil_r. destruct (is_method_like node).
    + destruct (index_method_ok src node pkg stk self Hreg) as (self' & -> & Hg).
      exists self'. split; [done|]. split; [by eapply grows_registered|done].
    + exists self. split; [done|]. split; [done|apply grows_refl].
Qed.

Lemma leave_ok src node stk self :
  leave src node (stk ++ option_list (own_frame src node)) self = Ok (stk, self).
Proof.
  unfold leave. destruct (own_frame src node) as [fr|].
  - change (option_list (Some fr)) with [fr]. by rewrite list_pop_snoc.
  - change (option_list (@None Frame)) with (@nil Frame). by rewrite app_nil_r.
Qed.

(** From a state in which the class named by the stack is registered,
    the loop over a list of children returns, restores the stack and
    lets the registry grow, as soon as the walk of each child does. *)
Lemma walk_children_ok_from src pkg l :
  Forall (λ n, ∀ stk self, registered pkg stk self →
            ∃ self', _walk_and_index src n pkg stk self = Ok (stk, self')
                     ∧ grows self self') l →
  ∀ stk self, registered pkg stk self →
    ∃ self', walk_children src pkg l stk self = Ok (stk, self') ∧ grows self self'.
Proof.
  induction 1 as [|c l Hc _ IH]; intros stk self Hreg.
  - exists self. split; [done|apply grows_refl].
  - cbn [walk_children]. destruct (Hc stk self Hreg) as (s1 & -> & G1). cbn.
    destruct (IH stk s1 (grows_registered _ _ _ _ G1 Hreg)) as (s2 & -> & G2).
    exists s2. split; [done|]. by eapply grows_trans.
Qed.

Lemma walk_ok src pkg node : ∀ stk self,
  registered pkg stk self →
  ∃ self', _walk_and_index src node pkg stk self = Ok (stk, self') ∧ grows self self'.
Proof.
  induction node as [ty f sb eb sp cs IH] using Node_ind_nested.
  intros stk self Hreg. rewrite walk_eq.
  destruct (enter_ok src pkg (mkNode ty f sb eb sp cs) stk self Hreg)
    as (s1 & -> & R1 & G1). cbn [mbind Result_bind children].
  destruct (walk_children_ok_from src pkg cs IH _ _ R1) as (s2 & -> & G2).
  cbn. rewrite leave_ok. exists s2. split; [done|]. by eapply grows_trans.
Qed.

Lemma walk_children_ok src pkg l stk self :
  registered pkg stk self →
  ∃ self', walk_children src pkg l stk self = Ok (stk, self') ∧ grows self self'.
Proof.
  apply walk_children_ok_from. apply Forall_forall. intros n _. apply walk_ok.
Qed.

(** ** The calls of [_walk_and_index] during a walk *)

(** The states of one step of [reaches], from a registered state. *)
Lemma reaches_step src pkg n stk self stk1 self1 i c stk2 self2 :
  registered pkg stk self →
  enter src pkg n stk self = Ok (stk1, self1) →
  children n !! i = Some c →
  walk_children src pkg (take i (children n)) stk1 self1 = Ok (stk2, self2) →
  stk1 = stk ++ option_list (own_frame src n) ∧ stk2 = stk1 ∧
  registered pkg stk2 self2 ∧ grows self self2 ∧
  ∀ self', _walk_and_index src n pkg stk self = Ok (stk, self') →
    ∃ self3, _walk_and_index src c pkg stk2 self2 = Ok (stk2, self3) ∧
             grows self3 self'.
Proof.
  intros Hreg Hent Hi Hpre.
  destruct (enter_ok src pkg n stk self Hreg) as (s1 & E1 & R1 & G1).
  rewrite E1 in Hent. injection Hent as <- <-.
  destruct (walk_children_ok src pkg (take i (children n)) _ _ R1) as (s2 & E2 & G2).
  rewrite E2 in Hpre. injection Hpre as <- <-.
  pose proof (grows_registered _ _ _ _ G2 R1) as R2.
  split; [done|]. split; [done|]. split; [done|].
  split; [by eapply grows_trans|].
  intros self' Hwalk. rewrite walk_eq, E1 in Hwalk. cbn [mbind Result_bind] in Hwalk.
  rewrite <- (take_drop_middle _ _ _ Hi), walk_children_app, E2 in Hwalk.
  cbn [mbind Result_bind walk_children] in Hwalk.
  destruct (walk_ok src pkg c _ _ R2) as (s3 & E3 & G3).
  rewrite E3 in Hwalk |- *. cbn [mbind Result_bind] in Hwalk.
  destruct (walk_children_ok src pkg (drop (S i) (children n)) _ s3
              (grows_registered _ _ _ _ G3 R2)) as (s4 & E4 & G4).
  rewrite E4 in Hwalk. cbn [mbind Result_bind] in Hwalk.
  rewrite leave_ok in Hwalk. injection Hwalk as <-.
  exists s3. by split.
Qed.

(** At every call the stack is the initial stack followed by the frames
    of the enclosing named class declarations, and the class it names is
    registered. *)
Lemma reaches_stack src pkg n stk self p m stkm selfm :
  registered pkg stk self →
  reaches src pkg n stk self p m stkm selfm →
  stkm = stk ++ enclosing src n p ∧ registered pkg stkm selfm ∧
  grows self selfm ∧ node_at n p = Some m.
Proof.
  intros Hreg Hr. induction Hr as [n stk self|n stk self stk1 self1 i c stk2 self2
    p m stkm selfm Hent Hi Hpre Hr IH].
  - cbn. rewrite app_nil_r. split_and!; [done|done|apply grows_refl|done].
  - destruct (reaches_step _ _ _ _ _ _ _ _ _ _ _ Hreg Hent Hi Hpre)
      as (-> & -> & R2 & G2 & _).
    destruct (IH R2) as (-> & Rm & Gm & Hat).
    cbn [enclosing node_at]. rewrite Hi, app_assoc.
    split_and!; [done|done| |done]. by eapply grows_trans.
Qed.

(** Every node of the tree is reached. *)
Lemma reaches_total src pkg p : ∀ n stk self m,
  registered pkg stk self → node_at n p = Some m →
  ∃ stkm selfm, reaches src pkg n stk self p m stkm selfm.
Proof.
  induction p as [|i p IH]; intros n stk self m Hreg Hat.
  - injection Hat as <-. eexists _, _. constructor.
  - cbn [node_at] in Hat. destruct (children n !! i) as [c|] eqn:Hi; [|done].
    destruct (enter_ok src pkg n stk self Hreg) as (s1 & E1 & R1 & G1).
    destruct (walk_children_ok src pkg (take i (children n)) _ _ R1) as (s2 & E2 & G2).
    destruct (IH c _ s2 m (grows_registered _ _ _ _ G2 R1) Hat) as (stkm & selfm & Hr).
    exists stkm, selfm. by eapply reaches_child.
Qed.

(** A change of the registry during a walk happens when a node is
    entered. *)
Section Change.
Variables (src : string) (pkg : option string) (Q : JavaIndexer → Prop).
Hypothesis Q_dec : ∀ s, Q s ∨ ¬ Q s.

Definition changes_in (n : Node) : Prop :=
  ∀ stk self self', registered pkg stk self →
    _walk_and_index src n pkg stk self = Ok (stk, self') →
    ¬ Q self → Q self' →
    ∃ p m stkm selfm stk1 self1,
      reaches src pkg n stk self p m stkm selfm ∧
      enter src pkg m stkm selfm = Ok (stk1, self1) ∧
      ¬ Q selfm ∧ Q self1 ∧ grows self1 self'.

Lemma walk_children_change l :
  Forall changes_in l →
  ∀ stk self self', registered pkg stk self →
    walk_children src pkg l stk self = Ok (stk, self') →
    ¬ Q self → Q self' →
    ∃ i c s_i p m stkm selfm stk1 self1,
      l !! i = Some c ∧
      walk_children src pkg (take i l) stk self = Ok (stk, s_i) ∧
      reaches src pkg c stk s_i p m stkm selfm ∧
      enter src pkg m stkm selfm = Ok (stk1, self1) ∧
      ¬ Q selfm ∧ Q self1 ∧ grows self1 self'.
Proof using Q_dec.
  induction 1 as [|c l Hc _ IH]; intros stk self self' Hreg Hw HnQ HQ.
  - injection Hw as <-. done.
  - cbn [walk_children] in Hw.
    destruct (walk_ok src pkg c _ _ Hreg) as (s1 & E1 & G1).
    rewrite E1 in Hw. cbn [mbind Result_bind] in Hw.
    pose proof (grows_registered _ _ _ _ G1 Hreg) as R1.
    destruct (Q_dec s1) as [HQ1|HnQ1].
    + destruct (Hc _ _ _ Hreg E1 HnQ HQ1)
        as (p & m & stkm & selfm & stk1 & self1 & Hr & He & Hn & Hy & Hg).
      exists 0, c, self, p, m, stkm, selfm, stk1, self1.
      destruct (walk_children_ok src pkg l _ _ R1) as (s2 & E2 & G2).
      rewrite E2 in Hw. injection Hw as <-.
      split_and!; try done. by eapply grows_trans.
    + destruct (IH _ _ _ R1 Hw HnQ1 HQ)
        as (i & d & s_i & p & m & stkm & selfm & stk1 & self1 &
            Hi & Hpre & Hr & He & Hn & Hy & Hg).
      exists (S i), d, s_i, p, m, stkm, selfm, stk1, self1.
      split_and!; try done.
      cbn [take walk_children]. by rewrite E1.
Qed.

Lemma walk_change n : changes_in n.
Proof using Q_dec.
  induction n as [ty f sb eb sp cs IH] using Node_ind_nested.
  intros stk self self' Hreg Hw HnQ HQ.
  set (n := mkNode ty f sb eb sp cs) in *.
  destruct (enter_ok src pkg n stk self Hreg) as (s1 & E1 & R1 & G1).
  destruct (walk_children_ok src pkg (children n) _ _ R1) as (s2 & E2 & G2).
  pose proof Hw as Hw'. rewrite walk_eq, E1 in Hw'. cbn [mbind Result_bind] in Hw'.
  rewrite E2 in Hw'. cbn [mbind Result_bind] in Hw'.
  rewrite leave_ok in Hw'. injection Hw' as <-.
  destruct (Q_dec s1) as [HQ1|HnQ1].
  - exists [], n, stk, self, (stk ++ option_list (own_frame src n)), s1.
    split_and!; try done. constructor.
  - destruct (walk_children_change cs IH _ _ _ R1 E2 HnQ1 HQ)
      as (i & d & s_i & p & m & stkm & selfm & stk1 & self1 &
          Hi & Hpre & Hr & He & Hn & Hy & Hg).
    exists (i :: p), m, stkm, selfm, stk1, self1.
    split_and!; try done. by eapply reaches_child.
Qed.
End Change.

(** ** Method and constructor declarations push no frame *)

Lemma method_like_no_frame src node :
  is_method_like node = true → own_frame src node = None.
Proof.
  unfold is_method_like, own_frame, class_name_node. intros H.
  rewrite bool_decide_false; [done|]. intros Hty. rewrite Hty in H.
  by vm_compute in H.
Qed.

(** ** The class named by the stack *)

(** C10. At every call of a walk that starts from a state in which the
    class named by the stack is registered (an empty stack, as in
    [index_source]), a non-empty stack names a key of the classes map; the
    lookup of [_index_method] at that point finds it, and the walk returns
    without raising. *)
Theorem C10_class_of_stack_registered src pkg root stk self p m stkm selfm :
  registered pkg stk self →
  reaches src pkg root stk self p m stkm selfm →
  (stkm ≠ [] → is_Some (classes selfm !! _fqcn pkg (frame_names stkm))) ∧
  (∃ self1, _index_method src m pkg stkm selfm = Ok self1) ∧
  (∃ self', _walk_and_index src root pkg stk self = Ok (stk, self')).
Proof.
  intros Hreg Hr.
  destruct (reaches_stack _ _ _ _ _ _ _ _ _ Hreg Hr) as (_ & Rm & _ & _).
  split_and!.
  - intros Hne. by destruct Rm.
  - destruct (index_method_ok src m pkg stkm selfm Rm) as (s & E & _). by exists s.
  - destruct (walk_ok src pkg root stk self Hreg) as (s & E & _). by exists s.
Qed.

Lemma reaches_method_m :
  reaches unit_two_calls_src None unit_two_calls [] empty_indexer [0; 2; 1]
    method_m [("C", 0, 0)] class_C_registered.
Proof.
  eapply reaches_child; [reflexivity..|].
  eapply reaches_child; [reflexivity..|].
  eapply reaches_child; [reflexivity..|].
  apply reaches_here.
Qed.

Lemma C10_witness :
  is_Some (classes class_C_registered !! _fqcn None (frame_names [("C", 0, 0)])) ∧
  (∃ self1, _index_method unit_two_calls_src method_m None [("C", 0, 0)]
              class_C_registered = Ok self1).
Proof.
  destruct (C10_class_of_stack_registered unit_two_calls_src None unit_two_calls []
              empty_indexer [0; 2; 1] method_m [("C", 0, 0)] class_C_registered)
    as (H1 & H2 & _).
  - by left.
  - apply reaches_method_m.
  - split; [by apply H1|exact H2].
Defined.

(** ** The nesting stack *)

Lemma own_frame_named src n cn :
  type n = "class_declaration" → child_by_field_name n "name" = Some cn →
  own_frame src n = Some (node_text src cn, (start_point n).1, (start_point n).2).
Proof.
  intros Hty Hcn. unfold own_frame, class_name_node.
  by rewrite bool_decide_true, Hcn.
Qed.






(** ** The method extractor *)

Lemma collect_params_spec src ps : ∀ acc,
  collect_params src ps acc =
  acc ++ map (spec_param_token src) (filter (λ p, type p = "parameter") ps).
Proof.
  induction ps as [|p ps IH]; intros acc; cbn [collect_params].
  - by rewrite app_nil_r.
  - rewrite filter_cons. case_bool_decide as Hty.
    + rewrite decide_True by done. rewrite IH. cbn [map].
      by rewrite <- app_assoc.
    + rewrite decide_False by done. apply IH.
Qed.

(** What [_index_method] records under a non-empty stack that names a
    registered class, in the terms of the code: one token for each child
    of the [parameters] field whose type is ["parameter"]. *)
Lemma index_method_signature src node pkg stk self cls :
  stk ≠ [] →
  classes self !! _fqcn pkg (frame_names stk) = Some cls →
  ∃ mi self' cls',
    _index_method src node pkg stk self = Ok self' ∧
    classes self' !! _fqcn pkg (frame_names stk) = Some cls' ∧
    methods cls' !!! name mi = methods cls !!! name mi ++ [mi] ∧
    name mi = from_option (node_text src) "<anonymous>"
                (child_by_field_name node "name") ∧
    (type node = "constructor_declaration" → return_type mi = None) ∧
    (type node = "method_declaration" →
       return_type mi = node_text src <$> child_by_field_name node "type") ∧
    params mi =
      match child_by_field_name node "parameters" with
      | Some pn => map (spec_param_token src)
                     (filter (λ p, type p = "parameter") (children pn))
      | None => []
      end ∧
    (line mi, col mi) = start_point node.
Proof.
  intros Hne Hcls. rewrite (index_method_eq _ _ _ _ _ Hne), Hcls.
  eexists (method_info_of src node), _, _. split; [reflexivity|].
  unfold append_method. cbn [classes]. rewrite lookup_insert_eq.
  split; [reflexivity|]. cbn [methods]. rewrite lookup_total_insert_eq.
  split; [reflexivity|]. unfold method_info_of. cbn [name return_type params line col].
  split_and!.
  - by destruct (child_by_field_name node "name").
  - intros Hty. rewrite bool_decide_false; [done|]. by rewrite Hty.
  - intros Hty. rewrite bool_decide_true by done.
    by destruct (child_by_field_name node "type").
  - destruct (child_by_field_name node "parameters") as [pn|]; [|done].
    by rewrite collect_params_spec.
  - unfold node_point. cbn. by destruct (start_point node).
Qed.

Lemma collect_params_none src ps : ∀ acc,
  Forall (λ p, type p ≠ "parameter") ps → collect_params src ps acc = acc.
Proof.
  induction ps as [|p ps IH]; intros acc Hall; [done|].
  apply Forall_cons in Hall as [Hp Hps]. cbn [collect_params].
  rewrite bool_decide_false by done. by apply IH.
Qed.

(** C9. The parameters of a method are not recorded. The extractor
    keeps the children of the [parameters] field whose type is
    ["parameter"]: a declaration whose parameter list holds no such child
    is recorded with an empty list of parameters. The tree of [m(int a)]
    has one parameter, a node of type [formal_parameter] with a [type] and
    a [name] field, whose token is ["int a"]; the method is recorded with
    its name, its return type and its position, and with no parameter. *)
Theorem C9_formal_parameter_not_recorded :
  (∀ src node,
     (∀ pn p, child_by_field_name node "parameters" = Some pn →
        p ∈ children pn → type p ≠ "parameter") →
     params (method_info_of src node) = []) ∧
  grammar_parameters method_with_parameter = [parameter_int_a] ∧
  map (spec_param_token unit_parameter_src)
    (grammar_parameters method_with_parameter) = ["int a"] ∧
  ∃ self' mi,
    index_root unit_parameter_src unit_parameter empty_indexer = Ok self' ∧
    overloads self' "C" "m" = [mi] ∧
    name mi = "m" ∧ return_type mi = Some "void" ∧
    (line mi, col mi) = (0, 8) ∧
    params mi = [].
Proof.
  split.
  { intros src node Hno. unfold method_info_of. cbn [params].
    destruct (child_by_field_name node "parameters") as [pn|]; [|done].
    apply collect_params_none, Forall_forall. intros p Hp. by apply (Hno pn). }
  split; [reflexivity|]. split; [reflexivity|].
  eexists _, (method_info_of unit_parameter_src method_with_parameter).
  split; [reflexivity|]. split_and!; reflexivity.
Qed.

(** ** Where the entries of the registry come from *)

Lemma fqcn_spec pkg class_names :
  _fqcn pkg class_names = package_prefix pkg +:+ String.concat "." class_names.
Proof. by destruct pkg as [[|a p]|]. Qed.

Lemma frame_names_snoc stk (fr : Frame) :
  frame_names (stk ++ [fr]) = frame_names stk ++ [fr.1.1].
Proof. unfold frame_names. by rewrite map_app. Qed.

Lemma own_frame_inv src n fr :
  own_frame src n = Some fr →
  type n = "class_declaration" ∧
  ∃ cn, child_by_field_name n "name" = Some cn ∧
        fr = (node_text src cn, (start_point n).1, (start_point n).2).
Proof.
  unfold own_frame, class_name_node. case_bool_decide as Hty; [|done].
  destruct (child_by_field_name n "name") as [cn|]; [|done].
  intros [= <-]. split; [done|]. by exists cn.
Qed.

(** The three things [enter] can do to the registry. *)
Lemma enter_inv src pkg m stk self stk1 self1 :
  enter src pkg m stk self = Ok (stk1, self1) →
  self1 = self
  ∨ (∃ fr, own_frame src m = Some fr ∧
       classes self !! _fqcn pkg (frame_names (stk ++ [fr])) = None ∧
       self1 = mkJavaIndexer (packages self)
                 (<[_fqcn pkg (frame_names (stk ++ [fr])) :=
                      mkClassInfo fr.1.1 (_fqcn pkg (frame_names (stk ++ [fr])))
                        fr.1.2 fr.2 ∅]> (classes self)))
  ∨ (is_method_like m = true ∧ stk ≠ [] ∧
     ∃ cls, classes self !! _fqcn pkg (frame_names stk) = Some cls ∧
       self1 = append_method (_fqcn pkg (frame_names stk)) cls
                 (method_info_of src m) self).
Proof.
  unfold enter. destruct (own_frame src m) as [fr|] eqn:Hfr.
  - destruct (classes self !! _) as [ci|] eqn:E; intros [= <- <-]; [by left|].
    right; left. by exists fr.
  - destruct (is_method_like m) eqn:Hm; [|intros [= <- <-]; by left].
    destruct (decide (stk = [])) as [->|Hne]; [intros [= <- <-]; by left|].
    rewrite (index_method_eq _ _ _ _ _ Hne).
    destruct (classes self !! _) as [cls|] eqn:E; [|done].
    intros [= <- <-]. right; right. split_and!; [done..|]. by exists cls.
Qed.

Lemma grows_overloads s s' k nm :
  grows s s' → overloads s k nm `prefix_of` overloads s' k nm.
Proof.
  intros [_ H]. unfold overloads. destruct (classes s !! k) as [ci|] eqn:E.
  - destruct (H _ _ E) as (ci' & -> & X). apply X.
  - apply prefix_nil.
Qed.

Lemma overloads_append fq cls mi self k nm :
  classes self !! fq = Some cls →
  overloads (append_method fq cls mi self) k nm =
  if decide (fq = k ∧ name mi = nm) then overloads self k nm ++ [mi]
  else overloads self k nm.
Proof.
  intros Hcls. unfold overloads, append_method. cbn [classes].
  destruct (decide (fq = k)) as [->|Hk].
  - rewrite lookup_insert_eq, Hcls. cbn [methods].
    destruct (decide (name mi = nm)) as [->|Hn].
    + rewrite lookup_total_insert_eq. by rewrite decide_True.
    + rewrite lookup_total_insert_ne by done. rewrite decide_False; [done|tauto].
  - rewrite lookup_insert_ne by done. rewrite decide_False; [done|tauto].
Qed.

(** A class that the walk adds to the registry was registered for a
    class declaration of the tree, under the name built from the stack
    at that declaration. *)
Lemma new_class_provenance src pkg root stk self self' k ci :
  registered pkg stk self →
  _walk_and_index src root pkg stk self = Ok (stk, self') →
  classes self !! k = None → classes self' !! k = Some ci →
  ∃ p n cn, node_at root p = Some n ∧ type n = "class_declaration" ∧
    child_by_field_name n "name" = Some cn ∧
    k = _fqcn pkg (frame_names (stk ++ enclosing src root p) ++ [node_text src cn]) ∧
    fqcn ci = k ∧ simple_name ci = node_text src cn ∧
    (class_line ci, class_col ci) = start_point n.
Proof.
  intros Hreg Hw Hold Hnew.
  destruct (walk_change src pkg (λ s, is_Some (classes s !! k))) with
    (n := root) (stk := stk) (self := self) (self' := self')
    as (p & m & stkm & selfm & stk1 & self1 & Hr & He & HnQ & HQ & Hg);
    [|done|done| |by eexists|].
  { intros s. destruct (classes s !! k); [left; by eexists|right; by intros [??]]. }
  { rewrite Hold. by intros [??]. }
  cbv beta in HQ, HnQ.
  destruct (reaches_stack _ _ _ _ _ _ _ _ _ Hreg Hr) as (-> & _ & _ & Hat).
  destruct (enter_inv _ _ _ _ _ _ _ He) as [->|[(fr & Hfr & Hnone & ->)|(_ & _ & cls & Hcls & ->)]].
  - done.
  - cbn [classes] in HQ.
    destruct (decide (_fqcn pkg (frame_names ((stk ++ enclosing src root p) ++ [fr])) = k))
      as [Hk|Hk]; [|by rewrite lookup_insert_ne in HQ].
    destruct (own_frame_inv _ _ _ Hfr) as (Hty & cn & Hcn & ->).
    destruct Hg as [_ Hg].
    destruct (Hg k (mkClassInfo (node_text src cn) k (start_point m).1 (start_point m).2 ∅))
      as (ci' & Hci' & X1 & X2 & X3 & X4 & _).
    { cbn [classes fst snd]. rewrite Hk. by rewrite lookup_insert_eq. }
    assert (ci' = ci) as -> by congruence.
    exists p, m, cn. rewrite frame_names_snoc in Hk. cbn in X1, X2, X3, X4.
    split_and!; try done. rewrite X3, X4. by destruct (start_point m).
  - exfalso. apply HnQ. unfold append_method in HQ. cbn [classes] in HQ.
    destruct (decide (_fqcn pkg (frame_names (stk ++ enclosing src root p)) = k))
      as [<-|Hk]; [by eexists|by rewrite lookup_insert_ne in HQ].
Qed.

Lemma walk_well_keyed src pkg root stk self self' :
  registered pkg stk self → well_keyed self →
  _walk_and_index src root pkg stk self = Ok (stk, self') →
  well_keyed self'.
Proof.
  intros Hreg Hwk Hw k ci' Hci'.
  destruct (classes self !! k) as [ci|] eqn:E.
  - destruct (walk_ok src pkg root stk self Hreg) as (s & Es & [_ G]).
    rewrite Es in Hw. injection Hw as <-.
    destruct (G _ _ E) as (c2 & Hc2 & _ & X & _).
    assert (c2 = ci') as -> by congruence. rewrite X. by apply Hwk.
  - by destruct (new_class_provenance _ _ _ _ _ _ _ _ Hreg Hw E Hci')
      as (_ & _ & _ & _ & _ & _ & _ & ? & _).
Qed.

(** A method record that the walk adds to the registry is the record of
    a method or constructor declaration of the tree. *)
Lemma new_method_provenance src pkg root stk self self' k nm j mi :
  registered pkg stk self →
  _walk_and_index src root pkg stk self = Ok (stk, self') →
  overloads self k nm !! j = None → overloads self' k nm !! j = Some mi →
  ∃ p m, node_at root p = Some m ∧ is_method_like m = true ∧
    mi = method_info_of src m ∧ name mi = nm ∧
    k = _fqcn pkg (frame_names (stk ++ enclosing src root p)).
Proof.
  intros Hreg Hw Hold Hnew.
  destruct (walk_change src pkg (λ s, is_Some (overloads s k nm !! j))) with
    (n := root) (stk := stk) (self := self) (self' := self')
    as (p & m & stkm & selfm & stk1 & self1 & Hr & He & HnQ & HQ & Hg);
    [|done|done| |by eexists|].
  { intros s. destruct (overloads s k nm !! j); [left; by eexists|right; by intros [??]]. }
  { rewrite Hold. by intros [??]. }
  cbv beta in HQ, HnQ.
  destruct (reaches_stack _ _ _ _ _ _ _ _ _ Hreg Hr) as (-> & _ & _ & Hat).
  destruct (enter_inv _ _ _ _ _ _ _ He) as [->|[(fr & Hfr & Hnone & ->)|(Hm & _ & cls & Hcls & ->)]].
  - done.
  - exfalso. revert HQ. unfold overloads in *. cbn [classes].
    destruct (decide (_fqcn pkg (frame_names ((stk ++ enclosing src root p) ++ [fr])) = k))
      as [Hk|Hk].
    + rewrite Hk, lookup_insert_eq. cbn [methods].
      rewrite lookup_total_empty. by intros [??].
    + by rewrite lookup_insert_ne.
  - pose proof (grows_overloads _ _ k nm Hg) as [rest Hrest].
    rewrite (overloads_append _ _ _ _ _ _ Hcls) in HQ, Hrest.
    case_decide as Hd; [|done]. destruct Hd as [<- <-].
    assert (j = length (overloads selfm (_fqcn pkg (frame_names (stk ++ enclosing src root p)))
                          (name (method_info_of src m)))) as Hj.
    { destruct HQ as [x Hx]. apply lookup_lt_Some in Hx.
      rewrite length_app in Hx. change (length [method_info_of src m]) with 1 in Hx.
      destruct (decide (j < length (overloads selfm
                 (_fqcn pkg (frame_names (stk ++ enclosing src root p)))
                 (name (method_info_of src m))))) as [Hlt|Hge]; [|lia].
      exfalso. apply HnQ. by apply lookup_lt_is_Some. }
    rewrite Hrest in Hnew. rewrite <- app_assoc in Hnew.
    rewrite lookup_app_r in Hnew by lia. rewrite Hj, Nat.sub_diag in Hnew.
    injection Hnew as <-. by exists p, m.
Qed.

Lemma add_package_classes p self : classes (add_package p self) = classes self.
Proof. unfold add_package. destruct p as [q|]; [|done]. by destruct (truthy _). Qed.

(** [index_root] never raises: it is the walk of the root from an empty
    stack. *)
Lemma index_root_walk src root self :
  ∃ self', index_root src root self = Ok self' ∧
    _walk_and_index src root (_find_package src root) []
      (add_package (_find_package src root) self) = Ok ([], self').
Proof.
  unfold index_root.
  destruct (walk_ok src (_find_package src root) root []
              (add_package (_find_package src root) self)) as (s & E & _); [by left|].
  exists s. by rewrite E.
Qed.

(** ** Fully-qualified class names *)

(** The key of a class that indexing a unit adds, in the terms of the
    code: the prefix is built from what [_find_package] returns, and the
    path from the class declarations that push a frame. *)
Lemma registered_class_key src root self self' k ci :
  well_keyed self →
  index_root src root self = Ok self' →
  classes self !! k = None → classes self' !! k = Some ci →
  (∃ p n cn, node_at root p = Some n ∧ type n = "class_declaration" ∧
     child_by_field_name n "name" = Some cn ∧
     simple_name ci = node_text src cn ∧
     fqcn ci = package_prefix (_find_package src root) +:+
               String.concat "." (frame_names (enclosing src root p)
                                    ++ [node_text src cn]) ∧
     k = fqcn ci) ∧
  (∀ k2 ci2, classes self' !! k2 = Some ci2 → fqcn ci2 = fqcn ci →
     k2 = k ∧ ci2 = ci).
Proof.
  intros Hwk Hix Hold Hnew.
  destruct (index_root_walk src root self) as (s & E & Hw).
  rewrite E in Hix. injection Hix as ->.
  assert (registered (_find_package src root) []
            (add_package (_find_package src root) self)) as Hreg by (by left).
  assert (well_keyed self') as Hwk'.
  { eapply walk_well_keyed; [exact Hreg| |exact Hw].
    intros k' c'. rewrite add_package_classes. apply Hwk. }
  split.
  - rewrite <- (add_package_classes (_find_package src root)) in Hold.
    destruct (new_class_provenance _ _ _ _ _ _ _ _ Hreg Hw Hold Hnew)
      as (p & n & cn & Hat & Hty & Hcn & Hk & Hf & Hs & _).
    exists p, n, cn. rewrite app_nil_l, fqcn_spec in Hk.
    split_and!; try done. by rewrite Hf.
  - intros k2 ci2 H2 Hf. pose proof (Hwk' _ _ H2) as E2.
    pose proof (Hwk' _ _ Hnew) as E1.
    assert (k2 = k) as -> by congruence. split; [done|congruence].
Qed.

(** C5. The package a unit declares is not in the names of its classes.
    The unit [package p;class A{}] declares the package [p]; the name of a
    package declaration is a child without a field name, so that
    [_find_package], which asks for the field [name], finds no package:
    the package set stays empty and the class is registered under the key
    and [fqcn] ["A"], not ["p.A"]. *)
Theorem C5_declared_package_not_in_fqcn :
  declared_package unit_package_src unit_package = Some "p" ∧
  child_by_field_name package_p "name" = None ∧
  _find_package unit_package_src unit_package = None ∧
  ∃ self' ci,
    index_root unit_package_src unit_package empty_indexer = Ok self' ∧
    packages self' = ∅ ∧
    classes self' !! "A" = Some ci ∧ fqcn ci = "A" ∧ simple_name ci = "A" ∧
    classes self' !! "p.A" = None.
Proof.
  split; [reflexivity|]. split; [reflexivity|]. split; [reflexivity|].
  eexists _, (mkClassInfo "A" "A" 0 10 ∅).
  split; [reflexivity|]. split_and!; reflexivity.
Qed.

(** ** The calls of a method *)

Lemma preorder_trans c : ∀ a b,
  a ∈ preorder b → b ∈ preorder c → a ∈ preorder c.
Proof.
  induction c as [ty f sb eb sp cs IH] using Node_ind_nested.
  intros a b Hab Hbc. rewrite preorder_eq in Hbc |- *. cbn [children] in *.
  apply elem_of_cons in Hbc as [->|Hbc].
  - by rewrite preorder_eq in Hab.
  - apply elem_of_cons. right.
    apply list_elem_of_In, in_flat_map in Hbc as (d & Hd & Hbd).
    apply list_elem_of_In, in_flat_map. exists d. split; [done|].
    apply list_elem_of_In. rewrite Forall_forall in IH.
    apply (IH d (proj2 (list_elem_of_In _ _) Hd) a b Hab).
    by apply list_elem_of_In.
Qed.

Lemma calls_of_method_info src m r :
  r ∈ calls (method_info_of src m) ↔ ∃ n, n ∈ preorder m ∧ r ∈ node_calls src n.
Proof.
  unfold method_info_of. cbn [calls].
  rewrite list_elem_of_In, in_flat_map. split.
  - intros (n & Hn & Hr). exists n. split; [|by apply list_elem_of_In].
    rewrite <- visit_order_perm. by apply list_elem_of_In.
  - intros (n & Hn & Hr). exists n. split; [|by apply list_elem_of_In].
    apply list_elem_of_In. by rewrite visit_order_perm.
Qed.

(** C3, as the code has it. A method record that indexing a unit adds to
    the registry is the record of a method or constructor declaration [m]
    of the unit, and its calls are exactly the records of the invocation
    and construction nodes of the subtree of [m]: none comes from outside
    that subtree, and the calls of every declaration nested in [m] are
    among them. *)
Theorem C3_calls_of_own_subtree src root self self' k nm j mi :
  index_root src root self = Ok self' →
  overloads self k nm !! j = None → overloads self' k nm !! j = Some mi →
  ∃ p m, node_at root p = Some m ∧ is_method_like m = true ∧
    mi = method_info_of src m ∧
    (∀ r, r ∈ calls mi ↔ ∃ n, n ∈ preorder m ∧ r ∈ node_calls src n) ∧
    (∀ m', m' ∈ preorder m →
       ∀ r, r ∈ calls (method_info_of src m') → r ∈ calls mi).
Proof.
  intros Hix Hold Hnew.
  destruct (index_root_walk src root self) as (s & E & Hw).
  rewrite E in Hix. injection Hix as ->.
  assert (overloads (add_package (_find_package src root) self) k nm !! j = None)
    as Hold' by (unfold overloads; by rewrite add_package_classes).
  destruct (new_method_provenance src (_find_package src root) root []
              (add_package (_find_package src root) self) self' k nm j mi) as
    (p & m & Hat & Hm & -> & _); [by left|exact Hw|exact Hold'|exact Hnew|].
  exists p, m. split_and!; try done.
  - apply calls_of_method_info.
  - intros m' Hm' r Hr. apply calls_of_method_info.
    apply calls_of_method_info in Hr as (n & Hn & Hrn).
    exists n. split; [|done]. by eapply preorder_trans.
Qed.

Lemma C3_witness :
  ∃ self' mi,
    index_root unit_two_calls_src unit_two_calls empty_indexer = Ok self' ∧
    overloads self' "C" "m" !! 0 = Some mi ∧
    ∃ m, is_method_like m = true ∧
      ∀ r, r ∈ calls mi ↔ ∃ n, n ∈ preorder m ∧ r ∈ node_calls unit_two_calls_src n.
Proof.
  eexists _, _. split; [reflexivity|]. split; [reflexivity|].
  destruct (C3_calls_of_own_subtree unit_two_calls_src unit_two_calls
              empty_indexer _ "C" "m" 0 _ eq_refl eq_refl eq_refl)
    as (p & m & _ & Hm & _ & H & _).
  exists m. split; [exact Hm|exact H].
Defined.

(** C3, as the claim states it, fails for a method declared in a local
    class of another method's body: the call [x()] lies in the body of
    [n], and its record is in the calls of [n] and in the calls of the
    enclosing method [m] as well. *)
Lemma C3_counterexample :
  ∃ self' mi_m mi_n r,
    index_root unit_local_class_src unit_local_class empty_indexer = Ok self' ∧
    overloads self' "O" "m" = [mi_m] ∧ overloads self' "O.L" "n" = [mi_n] ∧
    mi_m = method_info_of unit_local_class_src method_outer ∧
    mi_n = method_info_of unit_local_class_src method_n ∧
    mi_m ≠ mi_n ∧
    call_x ∈ preorder method_n ∧ node_calls unit_local_class_src call_x = [r] ∧
    r ∈ calls mi_n ∧ r ∈ calls mi_m.
Proof.
  eexists _, (method_info_of unit_local_class_src method_outer),
    (method_info_of unit_local_class_src method_n), (mkMethodCall "x" None 0 34).
  split; [reflexivity|]. split; [reflexivity|]. split; [reflexivity|].
  split; [reflexivity|]. split; [reflexivity|].
  split; [by intros [=]|].
  split; [|split; [reflexivity|split; vm_compute; apply list_elem_of_here]].
  apply list_elem_of_In. cbn. tauto.
Qed.

(** ** Duplicate class declarations *)

Lemma grows_keeps_method s s' k nm mi :
  grows s s' → mi ∈ overloads s k nm → mi ∈ overloads s' k nm.
Proof.
  intros G H. destruct (grows_overloads _ _ k nm G) as [rest ->].
  apply elem_of_app. by left.
Qed.

(** A method or constructor declaration that the walk reaches under a
    non-empty stack is recorded in the class the stack names, and the
    record is still there when the walk returns. *)
Lemma method_recorded src pkg n stk self p m stkm selfm :
  registered pkg stk self →
  reaches src pkg n stk self p m stkm selfm →
  is_method_like m = true → stkm ≠ [] →
  ∀ self', _walk_and_index src n pkg stk self = Ok (stk, self') →
    method_info_of src m ∈
      overloads self' (_fqcn pkg (frame_names stkm)) (name (method_info_of src m)).
Proof.
  intros Hreg Hr Hm. induction Hr as [n stk self|n stk self stk1 self1 i c stk2 self2
    p m stkm selfm Hent Hi Hpre Hr IH]; intros Hne self' Hw.
  - destruct Hreg as [->|[cls Hcls]]; [done|].
    rewrite walk_eq in Hw. unfold enter, leave in Hw.
    rewrite (method_like_no_frame src n Hm), Hm in Hw.
    rewrite (index_method_eq _ _ _ _ _ Hne), Hcls in Hw.
    cbn [mbind Result_bind] in Hw.
    pose proof (append_method_grows _ _ (method_info_of src n) _ Hcls) as G1.
    destruct (walk_children_ok src pkg (children n) stk
                (append_method (_fqcn pkg (frame_names stk)) cls
                   (method_info_of src n) self)) as (s2 & E2 & G2).
    { eapply grows_registered; [exact G1|]. right. by exists cls. }
    rewrite E2 in Hw. cbn [mbind Result_bind] in Hw. injection Hw as <-.
    eapply grows_keeps_method; [exact G2|].
    rewrite (overloads_append _ _ _ _ _ _ Hcls), decide_True by done.
    apply elem_of_app. right. apply list_elem_of_here.
  - destruct (reaches_step _ _ _ _ _ _ _ _ _ _ _ Hreg Hent Hi Hpre)
      as (_ & _ & R2 & _ & Hrest).
    destruct (Hrest _ Hw) as (s3 & E3 & G3).
    eapply grows_keeps_method; [exact G3|]. by apply (IH R2 Hm Hne).
Qed.

(** C1, as the code has it. When the walk meets a class declaration
    whose FQCN is already a key of the registry, it does not raise and
    registers no new class: the class found under that key keeps its
    simple name, its [fqcn] and its position, and every list of overloads
    it held is kept, in front of what the walk adds. The methods declared
    in the second occurrence are recorded in that same class. *)
Theorem C1_duplicate_class_merges src pkg n cn stk self ci :
  registered pkg stk self →
  type n = "class_declaration" → child_by_field_name n "name" = Some cn →
  let fr : Frame := (node_text src cn, (start_point n).1, (start_point n).2) in
  let fq := _fqcn pkg (frame_names (stk ++ [fr])) in
  classes self !! fq = Some ci →
  ∃ self' ci',
    _walk_and_index src n pkg stk self = Ok (stk, self') ∧
    classes self' !! fq = Some ci' ∧
    simple_name ci' = simple_name ci ∧ fqcn ci' = fqcn ci ∧
    class_line ci' = class_line ci ∧ class_col ci' = class_col ci ∧
    (∀ nm, (methods ci !!! nm) `prefix_of` (methods ci' !!! nm)) ∧
    (∀ p m selfm,
       reaches src pkg n stk self p m (stk ++ [fr]) selfm →
       is_method_like m = true →
       method_info_of src m ∈ methods ci' !!! name (method_info_of src m)).
Proof.
  intros Hreg Hty Hcn fr fq Hci.
  destruct (walk_ok src pkg n stk self Hreg) as (self' & Hw & G).
  pose proof G as [_ G'].
  destruct (G' _ _ Hci) as (ci' & Hci' & X1 & X2 & X3 & X4 & X5).
  exists self', ci'. split_and!; try done.
  intros p m selfm Hr Hm.
  assert (stk ++ [fr] ≠ []) as Hne by (by destruct stk).
  pose proof (method_recorded _ _ _ _ _ _ _ _ _ Hreg Hr Hm Hne self' Hw) as H.
  unfold overloads in H. fold fq in H. by rewrite Hci' in H.
Qed.

Lemma C1_witness :
  ∃ self' ci',
    _walk_and_index unit_duplicate_src class_A_second None [] class_A_indexed
      = Ok ([], self') ∧
    classes self' !! "A" = Some ci' ∧
    simple_name ci' = "A" ∧ fqcn ci' = "A" ∧
    class_line ci' = 0 ∧ class_col ci' = 0.
Proof.
  destruct (C1_duplicate_class_merges unit_duplicate_src None class_A_second
              (tok "identifier" (Some "name") 25 26) [] class_A_indexed
              (mkClassInfo "A" "A" 0 0
                 (<["f" := [method_info_of unit_duplicate_src method_f]]> ∅)))
    as (s & c & Hw & Hc & X1 & X2 & X3 & X4 & _).
  - by left.
  - reflexivity.
  - reflexivity.
  - reflexivity.
  - exists s, c. split_and!; [exact Hw|exact Hc|exact X1|exact X2|exact X3|exact X4].
Defined.

(** C1, as the claim states it, fails: the walk of the second
    declaration of [A] starts with [A] registered and holding the method
    [f]; it returns with the method [g] of the second declaration added to
    that class, so that the class is not left unchanged and the methods of
    the second occurrence are not lost. *)
Lemma C1_counterexample :
  ∃ ci self' ci',
    _walk_and_index unit_duplicate_src class_A_first None [] empty_indexer
      = Ok ([], class_A_indexed) ∧
    own_frame unit_duplicate_src class_A_second = Some ("A", 0, 19) ∧
    classes class_A_indexed !! _fqcn None (frame_names [("A", 0, 19)]) = Some ci ∧
    _walk_and_index unit_duplicate_src class_A_second None [] class_A_indexed
      = Ok ([], self') ∧
    classes self' !! "A" = Some ci' ∧
    methods ci !! "g" = None ∧
    methods ci' !! "g" = Some [method_info_of unit_duplicate_src method_g] ∧
    ci' ≠ ci.
Proof.
  eexists _, _, _.
  split; [vm_compute; reflexivity|]. split; [reflexivity|].
  split; [reflexivity|]. split; [reflexivity|]. split; [reflexivity|].
  split; [reflexivity|]. split; [reflexivity|].
  intros H. apply (f_equal (λ c, methods c !! "g")) in H. vm_compute in H. discriminate H.
Qed.

(** ** The order of the calls *)

(** C2. On a method whose body calls [a] and then [b], the collector
    lists [b] before [a]: the worklist hands out the children of a node
    from the last to the first. Source order, the pre-order of the
    subtree, is [a] before [b]. *)
Theorem C2_two_calls_reversed :
  ∃ self',
    index_root unit_two_calls_src unit_two_calls empty_indexer = Ok self' ∧
    (calls <$> overloads self' "C" "m") =
      [[mkMethodCall "b" None 0 21; mkMethodCall "a" None 0 17]] ∧
    flat_map (node_calls unit_two_calls_src) (preorder method_m) =
      [mkMethodCall "a" None 0 17; mkMethodCall "b" None 0 21].
Proof.
  eexists. split; [reflexivity|]. split; reflexivity.
Qed.

(** ** Construction expressions *)

Lemma prefix_append s t : String.prefix s (s +:+ t) = true.
Proof.
  induction s as [|a s IH]; [by destruct t|].
  change (String a s +:+ t) with (String a (s +:+ t)). cbn [String.prefix].
  by destruct (Ascii.ascii_dec a a).
Qed.

Lemma node_calls_creation src n :
  type n = "object_creation_expression" →
  node_calls src n = [constructor_record src n].
Proof.
  intros Hty. unfold node_calls, invocation_calls, creation_calls.
  rewrite bool_decide_false by (by rewrite Hty).
  rewrite bool_decide_true by done. cbn [app node_point].
  unfold constructor_record. by destruct (child_by_field_name n "type").
Qed.

Lemma node_calls_invocation src m r :
  type m = "method_invocation" → r ∈ node_calls src m →
  call_name r = from_option (node_text src) "<unknown>" (child_by_field_name m "name").
Proof.
  intros Hty. unfold node_calls, invocation_calls, creation_calls.
  rewrite bool_decide_true by done.
  rewrite bool_decide_false by (by rewrite Hty).
  cbn [node_point]. rewrite app_nil_r. intros ->%list_elem_of_singleton.
  by destruct (child_by_field_name m "name").
Qed.

(** C8. For a construction expression [n] in the subtree of a method or
    constructor declaration, the collector appends exactly one record,
    between the records of the nodes it visits before [n] and those of the
    nodes it visits after. The name of the record is the tag ["<init:"],
    the text of the [type] field and [">"]; its receiver is absent, which
    is not the empty string; its position is the start of the expression.
    The tag tells it from the record of an invocation, whose name is the
    callee name or ["<unknown>"], as long as the callee name does not
    itself start with the tag (no Java identifier does). *)
Theorem C8_construction_record src decl mi n :
  type n = "object_creation_expression" →
  n ∈ preorder decl →
  let r := constructor_record src n in
  (∃ before after,
     visit_order decl = before ++ n :: after ∧
     calls (_collect_calls_in_method src decl mi) =
       calls mi ++ flat_map (node_calls src) before ++ [r]
                ++ flat_map (node_calls src) after) ∧
  (∀ t, child_by_field_name n "type" = Some t →
     call_name r = "<init:" +:+ node_text src t +:+ ">") ∧
  String.prefix "<init:" (call_name r) = true ∧
  receiver r = None ∧ receiver r ≠ Some "" ∧
  (call_line r, call_col r) = start_point n ∧
  (∀ m r', type m = "method_invocation" → r' ∈ node_calls src m →
     (∀ nn, child_by_field_name m "name" = Some nn →
        String.prefix "<init:" (node_text src nn) = false) →
     String.prefix "<init:" (call_name r') = false ∧ r' ≠ r).
Proof.
  intros Hty Hin r.
  assert (String.prefix "<init:" (call_name r) = true) as Hpre.
  { unfold r, constructor_record. cbn [call_name].
    apply prefix_append. }
  split_and!.
  - rewrite <- visit_order_perm in Hin.
    apply list_elem_of_split in Hin as (before & after & Hsplit).
    exists before, after. split; [done|].
    rewrite collect_calls_spec, Hsplit, flat_map_app. cbn [flat_map].
    by rewrite (node_calls_creation src n Hty).
  - intros t Ht. unfold r, constructor_record. cbn [call_name]. by rewrite Ht.
  - exact Hpre.
  - done.
  - done.
  - unfold r, constructor_record. cbn. by destruct (start_point n).
  - intros m r' Hm Hr' Hname.
    rewrite (node_calls_invocation src m r' Hm Hr').
    assert (String.prefix "<init:"
              (from_option (node_text src) "<unknown>" (child_by_field_name m "name"))
            = false) as Hno.
    { destruct (child_by_field_name m "name") as [nn|]; [by apply Hname|done]. }
    split; [done|]. intros ->.
    rewrite (node_calls_invocation src m r Hm Hr') in Hpre. congruence.
Qed.

Lemma C8_witness :
  ∃ before after,
    visit_order method_new = before ++ new_Foo :: after ∧
    calls (_collect_calls_in_method unit_construction_src method_new
             (mkMethodInfo "m" [] (Some "void") 0 8 [])) =
      [] ++ flat_map (node_calls unit_construction_src) before
         ++ [mkMethodCall "<init:Foo>" None 0 17]
         ++ flat_map (node_calls unit_construction_src) after.
Proof.
  destruct (C8_construction_record unit_construction_src method_new
              (mkMethodInfo "m" [] (Some "void") 0 8 []) new_Foo) as [H _].
  - reflexivity.
  - apply list_elem_of_In. cbn. tauto.
  - exact H.
Defined.

(** ** The batch over a directory *)

(** A failure of [read_text] or of [index_source] on a [.java] file makes
    the handler evaluate [sys.stderr]; [sys] is not bound in the module,
    so the handler raises [NameError] and the batch stops there. *)
Lemma index_file_failure parse read_text dirpath fn b e :
  endswith fn ".java" = true →
  (src ← read_text (path_join dirpath fn); index_source parse src b.1) = Raise e →
  index_file parse read_text dirpath fn b = Raise (NameError "sys").
Proof.
  intros Hj He. unfold index_file. by rewrite Hj, He.
Qed.

(** C4. On a directory whose first file cannot be read, [index_directory]
    does not go on to the second file: it raises [NameError] for [sys]
    from the handler, with no warning written and nothing indexed. *)
Theorem C4_failed_file_aborts_batch (parse : string → Node) :
  index_directory parse unreadable_first [("src", ["A.java"; "B.java"])]
    (empty_indexer, []) = Raise (NameError "sys").
Proof. reflexivity. Qed.

(** ** Declarations met outside any class *)

Lemma appended_eq src pkg k nm n stk :
  appended src pkg k nm n stk =
  match own_frame src n with
  | Some fr => flat_map (λ c, appended src pkg k nm c (stk ++ [fr])) (children n)
  | None =>
      (if is_method_like n
          && bool_decide (stk ≠ [])
          && bool_decide (_fqcn pkg (frame_names stk) = k)
          && bool_decide (name (method_info_of src n) = nm)
       then [method_info_of src n] else [])
      ++ flat_map (λ c, appended src pkg k nm c stk) (children n)
  end.
Proof. by destruct n. Qed.

(** What entering a node does to a list of overloads. *)
Lemma enter_overloads src pkg n stk self stk1 self1 k nm :
  enter src pkg n stk self = Ok (stk1, self1) →
  overloads self1 k nm =
  overloads self k nm ++
    match own_frame src n with
    | Some _ => []
    | None =>
        if is_method_like n
           && bool_decide (stk ≠ [])
           && bool_decide (_fqcn pkg (frame_names stk) = k)
           && bool_decide (name (method_info_of src n) = nm)
        then [method_info_of src n] else []
    end.
Proof.
  unfold enter. destruct (own_frame src n) as [fr|] eqn:Hfr.
  - destruct (classes self !! _) as [ci|] eqn:Hci; intros [= <- <-];
      rewrite app_nil_r; [done|].
    unfold overloads. cbn [classes].
    destruct (decide (_fqcn pkg (frame_names (stk ++ [fr])) = k)) as [<-|Hk].
    + rewrite lookup_insert_eq, Hci. cbn [methods]. by rewrite lookup_total_empty.
    + by rewrite lookup_insert_ne.
  - destruct (is_method_like n) eqn:Hm; [|intros [= <- <-]; by rewrite app_nil_r].
    destruct (decide (stk = [])) as [->|Hne]; [intros [= <- <-]; by rewrite app_nil_r|].
    rewrite (index_method_eq _ _ _ _ _ Hne).
    destruct (classes self !! _) as [cls|] eqn:Hcls; [|done].
    intros [= <- <-]. rewrite (overloads_append _ _ _ _ _ _ Hcls).
    rewrite (bool_decide_true (stk ≠ [])) by done. cbn [andb].
    destruct (decide (_fqcn pkg (frame_names stk) = k ∧ name (method_info_of src n) = nm))
      as [[Hk Hn]|Hno].
    + by rewrite !bool_decide_true by done.
    + case_bool_decide as Hk; [|by rewrite app_nil_r].
      case_bool_decide as Hn; [|by rewrite app_nil_r]. tauto.
Qed.

Lemma walk_children_overloads src pkg k nm l :
  Forall (λ n, ∀ stk self self', registered pkg stk self →
            _walk_and_index src n pkg stk self = Ok (stk, self') →
            overloads self' k nm =
              overloads self k nm ++ appended src pkg k nm n stk) l →
  ∀ stk self self', registered pkg stk self →
    walk_children src pkg l stk self = Ok (stk, self') →
    overloads self' k nm =
      overloads self k nm ++ flat_map (λ c, appended src pkg k nm c stk) l.
Proof.
  induction 1 as [|c l Hc _ IH]; intros stk self self' Hreg Hw.
  - injection Hw as <-. by rewrite app_nil_r.
  - cbn [walk_children] in Hw.
    destruct (walk_ok src pkg c _ _ Hreg) as (s1 & E1 & G1).
    rewrite E1 in Hw. cbn [mbind Result_bind] in Hw.
    rewrite (IH _ _ _ (grows_registered _ _ _ _ G1 Hreg) Hw), (Hc _ _ _ Hreg E1).
    cbn [flat_map]. by rewrite app_assoc.
Qed.

Lemma walk_overloads src pkg k nm n : ∀ stk self self',
  registered pkg stk self →
  _walk_and_index src n pkg stk self = Ok (stk, self') →
  overloads self' k nm = overloads self k nm ++ appended src pkg k nm n stk.
Proof.
  induction n as [ty f sb eb sp cs IH] using Node_ind_nested.
  intros stk self self' Hreg Hw. set (n := mkNode ty f sb eb sp cs) in *.
  destruct (enter_ok src pkg n stk self Hreg) as (s1 & E1 & R1 & G1).
  pose proof (enter_overloads _ _ _ _ _ _ _ k nm E1) as Hent.
  rewrite walk_eq, E1 in Hw. cbn [mbind Result_bind] in Hw.
  destruct (walk_children_ok src pkg (children n) _ _ R1) as (s2 & E2 & G2).
  rewrite E2 in Hw. cbn [mbind Result_bind] in Hw.
  rewrite leave_ok in Hw. injection Hw as <-.
  rewrite (walk_children_overloads src pkg k nm cs IH _ _ _ R1 E2), Hent.
  rewrite (appended_eq src pkg k nm n stk).
  destruct (own_frame src n) as [fr|].
  - by rewrite app_nil_r.
  - change (option_list (@None Frame)) with (@nil Frame).
    by rewrite app_nil_r, app_assoc.
Qed.

Lemma walk_children_no_class src pkg l :
  Forall (λ n, declares_no_class n = true →
            ∀ self, _walk_and_index src n pkg [] self = Ok ([], self)) l →
  forallb declares_no_class l = true →
  ∀ self, walk_children src pkg l [] self = Ok ([], self).
Proof.
  induction 1 as [|c l Hc _ IH]; intros Hall self; [done|].
  cbn [forallb] in Hall. apply andb_prop in Hall as [H1 H2].
  cbn [walk_children]. rewrite (Hc H1 self). cbn [mbind Result_bind].
  by apply IH.
Qed.

(** The walk of a subtree that declares no class, from the empty stack,
    changes nothing. *)
Lemma walk_no_class src pkg n :
  declares_no_class n = true →
  ∀ self, _walk_and_index src n pkg [] self = Ok ([], self).
Proof.
  induction n as [ty f sb eb sp cs IH] using Node_ind_nested.
  intros Hno self. set (n := mkNode ty f sb eb sp cs) in *.
  assert (class_name_node n = None ∧ forallb declares_no_class cs = true)
    as [Hcn Hcs].
  { revert Hno. unfold n. cbn [declares_no_class].
    by destruct (class_name_node _). }
  rewrite walk_eq. unfold enter, leave, own_frame. rewrite Hcn.
  assert ((if is_method_like n then _index_method src n pkg [] self else Ok self)
          = Ok self) as -> by (by destruct (is_method_like n)).
  cbn [mbind Result_bind].
  change (children n) with cs.
  by rewrite (walk_children_no_class src pkg cs IH Hcs self).
Qed.

(** C7. A method or constructor declaration met while the nesting stack
    is empty raises no error and gets no record: [_index_method] returns
    at once and leaves the registry as it is. The walk then goes through
    the children of the declaration as it does for any other node, so
    that, whenever it returns,
    - its result is that of the loop over the children of the
      declaration, and the stack is empty again;
    - the overloads a class keeps under a method name are those it held,
      followed by the records of the declarations inside the
      declaration (those of the classes declared in its body);
    - when no class declaration lies within the declaration, the
      registry is left exactly as it was, and the walk of a list of
      siblings gives what it gives with the declaration taken out. *)
Theorem C7_method_outside_class_skipped src pkg node self :
  is_method_like node = true →
  _index_method src node pkg [] self = Ok self ∧
  (∀ r, _walk_and_index src node pkg [] self = Ok r →
     walk_children src pkg (children node) [] self = Ok r ∧
     r.1 = [] ∧
     (∀ k nm, overloads r.2 k nm =
        overloads self k nm ++
        flat_map (λ c, appended src pkg k nm c []) (children node)) ∧
     (declares_no_class node = true → r.2 = self)) ∧
  (declares_no_class node = true → ∀ before after r,
     walk_children src pkg (before ++ node :: after) [] self = Ok r →
     walk_children src pkg (before ++ after) [] self = Ok r).
Proof.
  intros Hm. split; [reflexivity|]. split.
  - intros r Hw.
    destruct (walk_ok src pkg node [] self (or_introl eq_refl)) as (s & E & _).
    assert (r = ([], s)) as -> by congruence.
    split_and!.
    + rewrite <- E, walk_eq. unfold enter, leave.
      rewrite (method_like_no_frame src node Hm), Hm, index_method_empty.
      cbn [mbind Result_bind].
      by destruct (walk_children _ _ _ _ _) as [[??]|].
    + reflexivity.
    + intros k nm. cbn [snd].
      rewrite (walk_overloads src pkg k nm node [] self s (or_introl eq_refl) E).
      rewrite appended_eq, (method_like_no_frame src node Hm).
      rewrite (bool_decide_false (@nil Frame ≠ [])) by (intros H; by apply H).
      by rewrite andb_false_r.
    + intros Hno. rewrite (walk_no_class src pkg node Hno self) in E.
      by injection E as <-.
  - intros Hno before after r. rewrite !walk_children_app.
    destruct (walk_children_ok src pkg before [] self (or_introl eq_refl))
      as (s1 & -> & _).
    cbn [mbind Result_bind walk_children].
    by rewrite (walk_no_class src pkg node Hno s1).
Qed.

Lemma C7_witness :
  is_method_like interface_method = true ∧
  _index_method unit_interface_src interface_method None [] empty_indexer
    = Ok empty_indexer ∧
  ∀ r, _walk_and_index unit_interface_src interface_method None []
         empty_indexer = Ok r →
    walk_children unit_interface_src None (children interface_method) []
      empty_indexer = Ok r ∧ r.1 = [].
Proof.
  split; [reflexivity|].
  destruct (C7_method_outside_class_skipped unit_interface_src None
              interface_method empty_indexer eq_refl) as (H1 & H2 & _).
  split; [exact H1|]. intros r Hr.
  destruct (H2 r Hr) as (Hc & Hs & _). by split.
Defined.

(** C7, as the claim states it, fails for a method that declares a local
    class: the method [m] of the interface [I] is met under the empty
    stack, and indexing the unit registers the class [L] of its body with
    the method [n], whereas the unit without the declaration leaves the
    registry empty. *)
Lemma C7_counterexample :
  is_method_like interface_method = true ∧
  reaches unit_interface_src None unit_interface [] empty_indexer [0; 2; 1]
    interface_method [] empty_indexer ∧
  index_root unit_interface_empty_src unit_interface_empty empty_indexer
    = Ok empty_indexer ∧
  ∃ self' mi,
    index_root unit_interface_src unit_interface empty_indexer = Ok self' ∧
    is_Some (classes self' !! "L") ∧
    overloads self' "L" "n" = [mi] ∧ name mi = "n" ∧
    self' ≠ empty_indexer.
Proof.
  split; [reflexivity|]. split.
  { eapply reaches_child; [reflexivity..|].
    eapply reaches_child; [reflexivity..|].
    eapply reaches_child; [reflexivity..|]. apply reaches_here. }
  split; [reflexivity|].
  eexists (mkJavaIndexer ∅ _), _. split; [vm_compute; reflexivity|].
  split; [by eexists|]. split; [reflexivity|]. split; [reflexivity|].
  intros H. apply (f_equal (λ s, classes s !! "L")) in H. vm_compute in H.
  discriminate H.
Qed.

(** * Further properties of the code *)

(** ** The collector *)

Lemma node_calls_length src n :
  length (node_calls src n) = if is_call_node n then 1 else 0.
Proof.
  unfold node_calls, invocation_calls, creation_calls, is_call_node.
  destruct (node_point n) as [l c].
  case_bool_decide as H1; case_bool_decide as H2; try done.
  rewrite H1 in H2. discriminate H2.
Qed.

Lemma flat_map_node_calls_length src l :
  length (flat_map (node_calls src) l) = length (filter is_call_node l).
Proof.
  induction l as [|n l IH]; [done|].
  cbn [flat_map]. rewrite length_app, node_calls_length, filter_cons, IH.
  destruct (is_call_node n); by cbn.
Qed.

(** X1. The collector changes nothing of the method record but its
    calls; it keeps the calls the record held, in front, and appends as
    many records as the subtree has invocation and construction nodes:
    every such node is counted once, whatever its depth. *)
Theorem collector_counts_call_nodes src n mi :
  let mi' := _collect_calls_in_method src n mi in
  name mi' = name mi ∧ params mi' = params mi ∧
  return_type mi' = return_type mi ∧ line mi' = line mi ∧ col mi' = col mi ∧
  calls mi `prefix_of` calls mi' ∧
  length (calls mi') =
    length (calls mi) + length (filter is_call_node (preorder n)).
Proof.
  intros mi'. split_and!; try done.
  - unfold mi'. rewrite collect_calls_spec. by apply prefix_app_r.
  - unfold mi'. rewrite collect_calls_spec, length_app, flat_map_node_calls_length.
    by rewrite (visit_order_perm n).
Qed.

Lemma visit_order_list_app u v :
  visit_order_list (u ++ v) = visit_order_list v ++ visit_order_list u.
Proof.
  induction u as [|c u IH]; cbn [app visit_order_list].
  - by rewrite app_nil_r.
  - by rewrite IH, app_assoc.
Qed.

(** The loop visits a subtree in one go, its root first. *)
Lemma visit_order_subtree n : ∀ m,
  m ∈ preorder n → ∃ l1 l2, visit_order n = l1 ++ visit_order m ++ l2.
Proof.
  induction n as [ty f sb eb sp cs IH] using Node_ind_nested.
  intros m Hm. rewrite preorder_eq in Hm. cbn [children] in Hm.
  apply elem_of_cons in Hm as [->|Hm].
  - exists [], []. by rewrite app_nil_r.
  - apply list_elem_of_In, in_flat_map in Hm as (c & Hc & Hmc).
    apply list_elem_of_In in Hc, Hmc.
    rewrite Forall_forall in IH. destruct (IH c Hc m Hmc) as (a & b & Hab).
    apply list_elem_of_split in Hc as (u & v & ->).
    rewrite visit_order_eq. cbn [children].
    rewrite visit_order_list_app. cbn [visit_order_list]. rewrite Hab.
    exists (mkNode ty f sb eb sp (u ++ c :: v) :: visit_order_list v ++ a),
      (b ++ visit_order_list u).
    cbn [app]. f_equal. by rewrite <- !app_assoc.
Qed.

(** X2. The records of a node of the declaration and of the nodes below
    it form one block of the calls of the declaration, the node's own
    record first: an invocation comes before the invocations nested in
    it. The block is what the collector lists when it is run on that node
    alone. *)
Theorem collector_lists_subtree_as_block src decl mi m :
  m ∈ preorder decl →
  ∃ before block after,
    calls (_collect_calls_in_method src decl mi) =
      calls mi ++ before ++ (node_calls src m ++ block) ++ after ∧
    ∀ mi0, calls (_collect_calls_in_method src m mi0) =
             calls mi0 ++ node_calls src m ++ block.
Proof.
  intros Hm. destruct (visit_order_subtree decl m Hm) as (l1 & l2 & Hsplit).
  exists (flat_map (node_calls src) l1),
    (flat_map (node_calls src) (visit_order_list (children m))),
    (flat_map (node_calls src) l2).
  split.
  - rewrite collect_calls_spec, Hsplit, !flat_map_app.
    by rewrite (visit_order_eq m).
  - intros mi0. rewrite collect_calls_spec. by rewrite (visit_order_eq m).
Qed.

Lemma collector_lists_subtree_as_block_witness :
  ∃ before block after,
    calls (_collect_calls_in_method unit_local_class_src method_outer
             (mkMethodInfo "m" [] (Some "void") 0 8 [])) =
      [] ++ before ++ (node_calls unit_local_class_src call_x ++ block) ++ after.
Proof.
  destruct (collector_lists_subtree_as_block unit_local_class_src method_outer
              (mkMethodInfo "m" [] (Some "void") 0 8 []) call_x)
    as (before & block & after & H & _).
  - apply list_elem_of_In. cbn. tauto.
  - exists before, block, after. exact H.
Defined.

Lemma node_calls_invocation_record src n :
  type n = "method_invocation" →
  node_calls src n = [invocation_record src n].
Proof.
  intros Hty. unfold node_calls, invocation_calls, creation_calls.
  rewrite bool_decide_true by done.
  rewrite bool_decide_false by (by rewrite Hty).
  cbn [app node_point]. unfold invocation_record.
  by destruct (child_by_field_name n "name"), (child_by_field_name n "object").
Qed.

(** X3. For an invocation [n] in the subtree of a declaration, the
    collector appends exactly one record, between the records of the nodes
    it visits before [n] and those of the nodes it visits after. Its name
    is the text of the [name] field, or ["<unknown>"] without one; its
    receiver is the text of the [object] field, and is absent exactly when
    the invocation has no [object] field (an [object] field with an empty
    text gives the empty string, not an absent receiver); its position is
    the start of the invocation. *)
Theorem invocation_recorded_once src decl mi n :
  type n = "method_invocation" →
  n ∈ preorder decl →
  let r := invocation_record src n in
  (∃ before after,
     visit_order decl = before ++ n :: after ∧
     calls (_collect_calls_in_method src decl mi) =
       calls mi ++ flat_map (node_calls src) before ++ [r]
                ++ flat_map (node_calls src) after) ∧
  call_name r = from_option (node_text src) "<unknown>"
                  (child_by_field_name n "name") ∧
  (receiver r = None ↔ child_by_field_name n "object" = None) ∧
  (∀ o, child_by_field_name n "object" = Some o →
     receiver r = Some (node_text src o)) ∧
  (call_line r, call_col r) = start_point n.
Proof.
  intros Hty Hin r. split_and!.
  - rewrite <- visit_order_perm in Hin.
    apply list_elem_of_split in Hin as (before & after & Hsplit).
    exists before, after. split; [done|].
    rewrite collect_calls_spec, Hsplit, flat_map_app. cbn [flat_map].
    by rewrite (node_calls_invocation_record src n Hty).
  - done.
  - unfold r, invocation_record. cbn [receiver].
    by destruct (child_by_field_name n "object").
  - intros o Ho. unfold r, invocation_record. cbn [receiver]. by rewrite Ho.
  - unfold r, invocation_record. cbn. by destruct (start_point n).
Qed.

Lemma invocation_recorded_once_witness :
  ∃ before after,
    visit_order method_n = before ++ call_x :: after ∧
    calls (_collect_calls_in_method unit_local_class_src method_n
             (mkMethodInfo "n" [] (Some "void") 0 25 [])) =
      [] ++ flat_map (node_calls unit_local_class_src) before
         ++ [mkMethodCall "x" None 0 34]
         ++ flat_map (node_calls unit_local_class_src) after.
Proof.
  destruct (invocation_recorded_once unit_local_class_src method_n
              (mkMethodInfo "n" [] (Some "void") 0 25 []) call_x) as [H _].
  - reflexivity.
  - apply list_elem_of_In. cbn. tauto.
  - exact H.
Defined.

(** ** The registry after a unit *)

(** What holds once a reached node is entered and only grows holds when
    the walk returns. *)
Lemma reaches_enter_grows src pkg n stk self p m stkm selfm :
  registered pkg stk self →
  reaches src pkg n stk self p m stkm selfm →
  ∀ self', _walk_and_index src n pkg stk self = Ok (stk, self') →
    ∃ s1, enter src pkg m stkm selfm
            = Ok (stkm ++ option_list (own_frame src m), s1) ∧
          registered pkg (stkm ++ option_list (own_frame src m)) s1 ∧
          grows s1 self'.
Proof.
  intros Hreg Hr. induction Hr as [n stk self|n stk self stk1 self1 i c stk2 self2
    p m stkm selfm Hent Hi Hpre Hr IH]; intros self' Hw.
  - destruct (enter_ok src pkg n stk self Hreg) as (s1 & E1 & R1 & G1).
    exists s1. split_and!; [done..|].
    rewrite walk_eq, E1 in Hw. cbn [mbind Result_bind] in Hw.
    destruct (walk_children_ok src pkg (children n) _ _ R1) as (s2 & E2 & G2).
    rewrite E2 in Hw. cbn [mbind Result_bind] in Hw.
    rewrite leave_ok in Hw. by injection Hw as <-.
  - destruct (reaches_step _ _ _ _ _ _ _ _ _ _ _ Hreg Hent Hi Hpre)
      as (_ & _ & R2 & _ & Hrest).
    destruct (Hrest _ Hw) as (s3 & E3 & G3).
    destruct (IH R2 _ E3) as (s1 & E1 & R1 & G1).
    exists s1. split_and!; [done..|]. by eapply grows_trans.
Qed.

Lemma truthy_Some p : truthy (Some p) = true ↔ p ≠ "".
Proof. by destruct p. Qed.

(** X4. When indexing a unit returns, the registry has only grown: every
    class it held is still there under the same key, with the same simple
    name, [fqcn] and position, and each of its lists of overloads is
    kept, in front of what the unit adds. *)
Theorem index_root_grows src root self self' :
  index_root src root self = Ok self' →
  ∀ k ci, classes self !! k = Some ci →
    ∃ ci', classes self' !! k = Some ci' ∧
      simple_name ci' = simple_name ci ∧ fqcn ci' = fqcn ci ∧
      class_line ci' = class_line ci ∧ class_col ci' = class_col ci ∧
      ∀ nm, (methods ci !!! nm) `prefix_of` (methods ci' !!! nm).
Proof.
  intros Hix k ci Hk.
  destruct (index_root_walk src root self) as (s0 & E & Hw).
  rewrite E in Hix. injection Hix as ->.
  destruct (walk_ok src (_find_package src root) root []
              (add_package (_find_package src root) self)) as (s & Es & [_ G]);
    [by left|].
  rewrite Es in Hw. injection Hw as ->.
  rewrite <- (add_package_classes (_find_package src root)) in Hk.
  destruct (G _ _ Hk) as (ci' & Hci' & X). by exists ci'.
Qed.

Lemma index_root_grows_witness :
  index_root unit_two_calls_src unit_two_calls two_calls_indexed
    = Ok two_calls_indexed_twice ∧
  ∀ ci, classes two_calls_indexed !! "C" = Some ci →
    ∃ ci', classes two_calls_indexed_twice !! "C" = Some ci' ∧
      simple_name ci' = simple_name ci ∧ fqcn ci' = fqcn ci ∧
      class_line ci' = class_line ci ∧ class_col ci' = class_col ci ∧
      ∀ nm, (methods ci !!! nm) `prefix_of` (methods ci' !!! nm).
Proof.
  split; [vm_compute; reflexivity|]. intros ci.
  apply (index_root_grows unit_two_calls_src unit_two_calls two_calls_indexed
           two_calls_indexed_twice).
  vm_compute; reflexivity.
Defined.

Lemma index_root_packages_eq src root self self' :
  index_root src root self = Ok self' →
  packages self' =
    match _find_package src root with
    | Some p => if decide (p = "") then packages self else {[p]} ∪ packages self
    | None => packages self
    end.
Proof.
  intros Hix. destruct (index_root_walk src root self) as (s & E & Hw).
  rewrite E in Hix. injection Hix as ->.
  destruct (walk_ok src (_find_package src root) root []
              (add_package (_find_package src root) self)) as (s & Es & [P _]);
    [by left|].
  rewrite Es in Hw. injection Hw as ->. rewrite P.
  unfold add_package. destruct (_find_package src root) as [p|]; [|done].
  destruct (decide (p = "")) as [->|Hp]; [done|].
  by rewrite (proj2 (truthy_Some p) Hp).
Qed.

Lemma index_root_keys src root self self' k :
  index_root src root self = Ok self' →
  is_Some (classes self' !! k) ↔
  is_Some (classes self !! k) ∨ declares_class src root k.
Proof.
  intros Hix. destruct (index_root_walk src root self) as (s & E & Hw).
  rewrite E in Hix. injection Hix as ->.
  set (pkg := _find_package src root) in *.
  assert (registered pkg [] (add_package pkg self)) as Hreg by (by left).
  split.
  - intros [ci Hci]. destruct (classes self !! k) as [c0|] eqn:Hold; [left; by eexists|].
    right. rewrite <- (add_package_classes pkg) in Hold.
    destruct (new_class_provenance _ _ _ _ _ _ _ _ Hreg Hw Hold Hci)
      as (p & n & cn & Hat & Hty & Hcn & Hk & _).
    exists p, n, cn. rewrite app_nil_l, fqcn_spec in Hk. by split_and!.
  - intros [[c0 Hc0]|(p & n & cn & Hat & Hty & Hcn & ->)].
    + destruct (walk_ok src pkg root [] (add_package pkg self) Hreg) as (s & Es & [_ G]).
      rewrite Es in Hw. injection Hw as ->.
      rewrite <- (add_package_classes pkg) in Hc0.
      destruct (G _ _ Hc0) as (ci' & -> & _). by eexists.
    + destruct (reaches_total src pkg p root [] (add_package pkg self) n Hreg Hat)
        as (stkn & selfn & Hr).
      destruct (reaches_stack _ _ _ _ _ _ _ _ _ Hreg Hr) as (-> & _).
      destruct (reaches_enter_grows _ _ _ _ _ _ _ _ _ Hreg Hr _ Hw)
        as (s1 & _ & R1 & [_ G1]).
      rewrite (own_frame_named src n cn Hty Hcn) in R1.
      change (option_list (Some ?x)) with [x] in R1.
      destruct R1 as [R1|[c1 Hc1]]; [by destruct (enclosing src root p)|].
      rewrite app_nil_l, frame_names_snoc, fqcn_spec in Hc1. cbn [fst] in Hc1.
      destruct (G1 _ _ Hc1) as (ci' & Hci' & _). exists ci'. exact Hci'.
Qed.

(** X6. After a unit is indexed the keys of the classes map are the keys
    it had and, for each class declaration of the unit that has a [name]
    field, the key the code builds for it: the prefix made from what
    [_find_package] returns, then the names of the enclosing class
    declarations (enclosing interfaces, enums and records give no name)
    and its own, joined by dots. Each of these declarations is
    registered, at any depth, and nothing else is. *)
Theorem index_root_registers_declared_classes src root self self' k :
  index_root src root self = Ok self' →
  is_Some (classes self' !! k) ↔
  is_Some (classes self !! k) ∨ declares_class src root k.
Proof. apply index_root_keys. Qed.

Lemma index_root_registers_declared_classes_witness :
  ∃ self',
    index_root unit_local_class_src unit_local_class empty_indexer = Ok self' ∧
    (is_Some (classes self' !! "O.L") ↔
     is_Some (classes empty_indexer !! "O.L")
     ∨ declares_class unit_local_class_src unit_local_class "O.L").
Proof.
  eexists. split; [reflexivity|].
  apply (index_root_registers_declared_classes unit_local_class_src
           unit_local_class empty_indexer).
  reflexivity.
Defined.

Lemma index_root_dom src root self self' :
  index_root src root self = Ok self' →
  ∀ k, k ∈ dom (classes self') ↔ k ∈ dom (classes self) ∨ declares_class src root k.
Proof.
  intros Hix k. rewrite !elem_of_dom. by apply index_root_keys.
Qed.

(** X7. The classes and packages a registry knows after two units do not
    depend on the order in which the units are indexed: both orders give
    the same keys of the classes map and the same package set. (The
    records under the keys may differ: a class keeps the position of its
    first registration.) *)
Theorem index_order_keeps_keys srcA rootA srcB rootB self sA sAB sB sBA :
  index_root srcA rootA self = Ok sA → index_root srcB rootB sA = Ok sAB →
  index_root srcB rootB self = Ok sB → index_root srcA rootA sB = Ok sBA →
  dom (classes sAB) = dom (classes sBA) ∧ packages sAB = packages sBA.
Proof.
  intros HA HAB HB HBA. split.
  - apply set_eq. intros k.
    rewrite (index_root_dom _ _ _ _ HAB k), (index_root_dom _ _ _ _ HA k).
    rewrite (index_root_dom _ _ _ _ HBA k), (index_root_dom _ _ _ _ HB k).
    tauto.
  - rewrite (index_root_packages_eq _ _ _ _ HAB), (index_root_packages_eq _ _ _ _ HA).
    rewrite (index_root_packages_eq _ _ _ _ HBA), (index_root_packages_eq _ _ _ _ HB).
    destruct (_find_package srcA rootA) as [a|], (_find_package srcB rootB) as [b|];
      try destruct (decide (a = "")) as [Ha|Ha];
      try destruct (decide (b = "")) as [Hb|Hb]; cbn;
      apply set_eq; intros x; rewrite ?elem_of_union, ?elem_of_singleton; tauto.
Qed.

Lemma index_order_keeps_keys_witness :
  dom (classes both_indexed) = dom (classes both_indexed) ∧
  packages both_indexed = packages both_indexed.
Proof.
  apply (index_order_keeps_keys unit_two_calls_src unit_two_calls
           unit_construction_src unit_construction empty_indexer
           two_calls_indexed both_indexed construction_indexed both_indexed);
    vm_compute; reflexivity.
Defined.

(** X8. Indexing the same unit a second time registers no class and no
    package: the keys of the classes map and the package set are those
    the first pass left. *)
Theorem index_root_twice_same_keys src root self s1 s2 :
  index_root src root self = Ok s1 → index_root src root s1 = Ok s2 →
  dom (classes s2) = dom (classes s1) ∧ packages s2 = packages s1.
Proof.
  intros H1 H2. split.
  - apply set_eq. intros k.
    rewrite (index_root_dom _ _ _ _ H2 k), (index_root_dom _ _ _ _ H1 k). tauto.
  - rewrite (index_root_packages_eq _ _ _ _ H2), (index_root_packages_eq _ _ _ _ H1).
    destruct (_find_package src root) as [a|];
      try destruct (decide (a = "")) as [Ha|Ha]; cbn;
      apply set_eq; intros x; rewrite ?elem_of_union, ?elem_of_singleton; tauto.
Qed.

Lemma index_root_twice_same_keys_witness :
  dom (classes two_calls_indexed_twice) = dom (classes two_calls_indexed) ∧
  packages two_calls_indexed_twice = packages two_calls_indexed.
Proof.
  apply (index_root_twice_same_keys unit_two_calls_src unit_two_calls
           empty_indexer two_calls_indexed two_calls_indexed_twice);
    vm_compute; reflexivity.
Defined.

(** ** The methods of a unit *)

(** X9. Every method or constructor declaration of a unit that lies in
    at least one class declaration with a [name] field is recorded when
    the unit is indexed: its record is in the list its name has in the
    class named by the enclosing class declarations, at any depth of
    nesting. *)
Theorem index_root_records_methods src root self self' p m :
  index_root src root self = Ok self' →
  node_at root p = Some m → is_method_like m = true →
  enclosing src root p ≠ [] →
  method_info_of src m ∈
    overloads self'
      (package_prefix (_find_package src root) +:+
       String.concat "." (frame_names (enclosing src root p)))
      (from_option (node_text src) "<anonymous>" (child_by_field_name m "name")).
Proof.
  intros Hix Hat Hm Hne. destruct (index_root_walk src root self) as (s & E & Hw).
  rewrite E in Hix. injection Hix as ->.
  set (pkg := _find_package src root) in *.
  assert (registered pkg [] (add_package pkg self)) as Hreg by (by left).
  destruct (reaches_total src pkg p root [] (add_package pkg self) m Hreg Hat)
    as (stkm & selfm & Hr).
  destruct (reaches_stack _ _ _ _ _ _ _ _ _ Hreg Hr) as (-> & _).
  rewrite app_nil_l in Hr.
  pose proof (method_recorded _ _ _ _ _ _ _ _ _ Hreg Hr Hm Hne self' Hw) as H.
  rewrite fqcn_spec in H. unfold method_info_of in H at 2. cbn [name] in H.
  by destruct (child_by_field_name m "name").
Qed.

Lemma index_root_records_methods_witness :
  ∃ self',
    index_root unit_local_class_src unit_local_class empty_indexer = Ok self' ∧
    method_info_of unit_local_class_src method_n ∈ overloads self' "O.L" "n".
Proof.
  eexists. split; [reflexivity|].
  apply (index_root_records_methods unit_local_class_src unit_local_class
           empty_indexer _ [0; 2; 1; 3; 1; 2; 1] method_n).
  - reflexivity.
  - reflexivity.
  - reflexivity.
  - done.
Defined.

(** A method record that the walk adds was appended by [_index_method]
    under a non-empty stack. *)
Lemma new_method_under_stack src pkg root stk self self' k nm j mi :
  registered pkg stk self →
  _walk_and_index src root pkg stk self = Ok (stk, self') →
  overloads self k nm !! j = None → overloads self' k nm !! j = Some mi →
  ∃ p m, node_at root p = Some m ∧ is_method_like m = true ∧
    stk ++ enclosing src root p ≠ [] ∧
    k = _fqcn pkg (frame_names (stk ++ enclosing src root p)) ∧
    nm = name (method_info_of src m) ∧ mi = method_info_of src m.
Proof.
  intros Hreg Hw Hold Hnew.
  destruct (walk_change src pkg (λ s, is_Some (overloads s k nm !! j))) with
    (n := root) (stk := stk) (self := self) (self' := self')
    as (p & m & stkm & selfm & stk1 & self1 & Hr & He & HnQ & HQ & Hg);
    [|done|done| |by eexists|].
  { intros s. destruct (overloads s k nm !! j); [left; by eexists|right; by intros [??]]. }
  { rewrite Hold. by intros [??]. }
  cbv beta in HQ, HnQ.
  destruct (reaches_stack _ _ _ _ _ _ _ _ _ Hreg Hr) as (-> & _ & _ & Hat).
  destruct (enter_inv _ _ _ _ _ _ _ He)
    as [->|[(fr & Hfr & Hnone & ->)|(Hm & Hne & cls & Hcls & ->)]].
  - done.
  - exfalso. revert HQ. unfold overloads in *. cbn [classes].
    destruct (decide (_fqcn pkg (frame_names ((stk ++ enclosing src root p) ++ [fr])) = k))
      as [Hk|Hk].
    + rewrite Hk, lookup_insert_eq. cbn [methods].
      rewrite lookup_total_empty. by intros [??].
    + by rewrite lookup_insert_ne.
  - pose proof (grows_overloads _ _ k nm Hg) as [rest Hrest].
    rewrite (overloads_append _ _ _ _ _ _ Hcls) in HQ, Hrest.
    case_decide as Hd; [|done]. destruct Hd as [<- <-].
    set (old := overloads selfm (_fqcn pkg (frame_names (stk ++ enclosing src root p)))
                  (name (method_info_of src m))) in *.
    assert (j = length old) as Hj.
    { destruct HQ as [x Hx]. apply lookup_lt_Some in Hx.
      rewrite length_app in Hx. change (length [method_info_of src m]) with 1 in Hx.
      destruct (decide (j < length old)) as [Hlt|Hge]; [|lia].
      exfalso. apply HnQ. by apply lookup_lt_is_Some. }
    rewrite Hrest in Hnew. rewrite <- app_assoc in Hnew.
    rewrite lookup_app_r in Hnew by lia. rewrite Hj, Nat.sub_diag in Hnew.
    injection Hnew as <-. by exists p, m.
Qed.

(** X10. A method record that indexing a unit adds to the registry
    comes from a method or constructor declaration of the unit that lies
    in at least one class declaration with a [name] field; it is filed in
    the class named by the enclosing class declarations, under the text of
    the declaration's [name] field (["<anonymous>"] without one). A
    declaration outside every such class adds no record, and no record is
    filed in a class other than the innermost one that encloses it. *)
Theorem index_root_method_provenance src root self self' k nm j mi :
  index_root src root self = Ok self' →
  overloads self k nm !! j = None → overloads self' k nm !! j = Some mi →
  ∃ p m, node_at root p = Some m ∧ is_method_like m = true ∧
    enclosing src root p ≠ [] ∧
    k = package_prefix (_find_package src root) +:+
        String.concat "." (frame_names (enclosing src root p)) ∧
    nm = from_option (node_text src) "<anonymous>" (child_by_field_name m "name") ∧
    name mi = nm ∧ (line mi, col mi) = start_point m.
Proof.
  intros Hix Hold Hnew. destruct (index_root_walk src root self) as (s & E & Hw).
  rewrite E in Hix. injection Hix as ->.
  set (pkg := _find_package src root) in *.
  assert (overloads (add_package pkg self) k nm !! j = None)
    as Hold' by (unfold overloads; by rewrite add_package_classes).
  destruct (new_method_under_stack src pkg root [] (add_package pkg self) self' k nm j mi)
    as (p & m & Hat & Hm & Hne & -> & -> & ->); [by left|done..|].
  exists p, m. rewrite app_nil_l in Hne. rewrite app_nil_l, fqcn_spec.
  unfold method_info_of. cbn [name line col].
  split_and!; try done.
  unfold node_point. cbn. by destruct (start_point m).
Qed.

Lemma index_root_method_provenance_witness :
  ∃ self' mi,
    index_root unit_local_class_src unit_local_class empty_indexer = Ok self' ∧
    overloads self' "O.L" "n" !! 0 = Some mi ∧
    ∃ p m, node_at unit_local_class p = Some m ∧ is_method_like m = true ∧
      enclosing unit_local_class_src unit_local_class p ≠ [] ∧
      (line mi, col mi) = start_point m.
Proof.
  eexists _, _. split; [reflexivity|]. split; [reflexivity|].
  destruct (index_root_method_provenance unit_local_class_src unit_local_class
              empty_indexer _ "O.L" "n" 0 _ eq_refl eq_refl eq_refl)
    as (p & m & Hat & Hm & Hne & _ & _ & _ & Hpos).
  exists p, m. split_and!; [exact Hat|exact Hm|exact Hne|exact Hpos].
Defined.

(** ** The lists of overloads after a unit *)

Lemma index_root_overloads_eq src root self self' k nm :
  index_root src root self = Ok self' →
  overloads self' k nm =
    overloads self k nm ++ appended src (_find_package src root) k nm root [].
Proof.
  intros Hix. destruct (index_root_walk src root self) as (s & E & Hw).
  rewrite E in Hix. injection Hix as ->.
  rewrite (walk_overloads _ _ k nm _ _ _ _ (or_introl eq_refl) Hw).
  unfold overloads. by rewrite add_package_classes.
Qed.

(** X11. After a unit is indexed, the list of overloads a class keeps
    under a method name is the list it held followed by the records of
    the unit's method and constructor declarations filed in that class
    under that name, in document order; what is appended depends on the
    unit alone, not on the registry. *)
Theorem index_root_overloads src root self self' k nm :
  index_root src root self = Ok self' →
  overloads self' k nm =
    overloads self k nm ++ appended src (_find_package src root) k nm root [].
Proof. apply index_root_overloads_eq. Qed.

Lemma index_root_overloads_witness :
  ∃ self',
    index_root unit_duplicate_src unit_duplicate class_A_indexed = Ok self' ∧
    overloads self' "A" "f" =
      overloads class_A_indexed "A" "f" ++
      appended unit_duplicate_src None "A" "f" unit_duplicate [].
Proof.
  eexists. split; [reflexivity|].
  apply (index_root_overloads unit_duplicate_src unit_duplicate class_A_indexed).
  reflexivity.
Defined.

(** X12. Indexing the same unit twice files every method record of the
    unit twice: each list of overloads ends with the records of the unit
    followed by the same records again. *)
Theorem index_root_twice_appends_twice src root self s1 s2 k nm :
  index_root src root self = Ok s1 → index_root src root s1 = Ok s2 →
  overloads s2 k nm =
    overloads self k nm
    ++ appended src (_find_package src root) k nm root []
    ++ appended src (_find_package src root) k nm root [].
Proof.
  intros H1 H2.
  rewrite (index_root_overloads_eq _ _ _ _ k nm H2).
  rewrite (index_root_overloads_eq _ _ _ _ k nm H1).
  by rewrite app_assoc.
Qed.

Lemma index_root_twice_appends_twice_witness :
  overloads two_calls_indexed_twice "C" "m" =
    overloads empty_indexer "C" "m"
    ++ appended unit_two_calls_src (_find_package unit_two_calls_src unit_two_calls)
         "C" "m" unit_two_calls []
    ++ appended unit_two_calls_src (_find_package unit_two_calls_src unit_two_calls)
         "C" "m" unit_two_calls [].
Proof.
  apply (index_root_twice_appends_twice unit_two_calls_src unit_two_calls
           empty_indexer two_calls_indexed two_calls_indexed_twice "C" "m");
    vm_compute; reflexivity.
Defined.

(** ** The package of a unit *)

Lemma find_package_in_None src cs :
  find_package_in src cs = None ↔
  ∀ c, c ∈ cs → type c = "package_declaration" →
       child_by_field_name c "name" = None.
Proof.
  induction cs as [|c cs IH]; cbn [find_package_in].
  - split; [|done]. intros _ c Hc. by apply elem_of_nil in Hc.
  - case_bool_decide as Hty.
    + destruct (child_by_field_name c "name") as [nn|] eqn:Hnn.
      * split; [done|]. intros H. specialize (H c (list_elem_of_here _ _) Hty).
        congruence.
      * rewrite IH. split.
        -- intros H d [->|Hd]%elem_of_cons Hd'; [done|by apply H].
        -- intros H d Hd. apply H. by apply list_elem_of_further.
    + rewrite IH. split.
      * intros H d [->|Hd]%elem_of_cons Hd'; [done|by apply H].
      * intros H d Hd. apply H. by apply list_elem_of_further.
Qed.

Lemma find_package_in_Some src cs t :
  find_package_in src cs = Some t →
  ∃ l1 c nn l2, cs = l1 ++ c :: l2 ∧ type c = "package_declaration" ∧
    child_by_field_name c "name" = Some nn ∧ t = node_text src nn ∧
    find_package_in src l1 = None.
Proof.
  induction cs as [|c cs IH]; cbn [find_package_in]; [done|].
  destruct (decide (type c = "package_declaration")) as [Hty|Hty].
  - rewrite bool_decide_true by done.
    destruct (child_by_field_name c "name") as [nn|] eqn:Hnn.
    + intros [= <-]. by exists [], c, nn, cs.
    + intros H. destruct (IH H) as (l1 & d & nn & l2 & -> & Hd & Hnn' & -> & Hl1).
      exists (c :: l1), d, nn, l2. split_and!; try done.
      cbn [find_package_in]. by rewrite bool_decide_true, Hnn.
  - rewrite bool_decide_false by done.
    intros H. destruct (IH H) as (l1 & d & nn & l2 & -> & Hd & Hnn' & -> & Hl1).
    exists (c :: l1), d, nn, l2. split_and!; try done.
    cbn [find_package_in]. by rewrite bool_decide_false.
Qed.

(** X13. [_find_package] looks at the children of the root only, and
    returns the text of the [name] field of the first package declaration
    that has one: a package declaration without a [name] field is passed
    over, later ones are not looked at, and there is no package exactly
    when no child of the root is a package declaration with a [name]
    field. *)
Theorem find_package_first_named src root :
  (_find_package src root = None ↔
   ∀ c, c ∈ children root → type c = "package_declaration" →
        child_by_field_name c "name" = None) ∧
  (∀ t, _find_package src root = Some t →
     ∃ l1 c nn l2, children root = l1 ++ c :: l2 ∧
       type c = "package_declaration" ∧
       child_by_field_name c "name" = Some nn ∧ t = node_text src nn ∧
       ∀ d, d ∈ l1 → type d = "package_declaration" →
            child_by_field_name d "name" = None).
Proof.
  unfold _find_package. split; [apply find_package_in_None|].
  intros t Ht.
  destruct (find_package_in_Some _ _ _ Ht) as (l1 & c & nn & l2 & H1 & H2 & H3 & H4 & H5).
  exists l1, c, nn, l2. split_and!; try done.
  exact (proj1 (find_package_in_None src l1) H5).
Qed.

(** X5. A unit none of whose package declarations has a [name] field has
    no package for the indexer: when it is indexed the package set is
    left as it was, and the keys added are the dotted paths of class
    names, with no package in front. *)
Theorem index_root_without_package_name src root self self' :
  (∀ c, c ∈ children root → type c = "package_declaration" →
        child_by_field_name c "name" = None) →
  index_root src root self = Ok self' →
  packages self' = packages self ∧
  ∀ k, is_Some (classes self' !! k) ↔
    is_Some (classes self !! k) ∨
    ∃ p n cn, node_at root p = Some n ∧ type n = "class_declaration" ∧
      child_by_field_name n "name" = Some cn ∧
      k = String.concat "." (frame_names (enclosing src root p)
                               ++ [node_text src cn]).
Proof.
  intros Hno Hix.
  assert (_find_package src root = None) as Hpkg
    by (by apply find_package_in_None).
  split.
  - by rewrite (index_root_packages_eq _ _ _ _ Hix), Hpkg.
  - intros k. rewrite (index_root_keys _ _ _ _ k Hix).
    unfold declares_class. by rewrite Hpkg.
Qed.

Lemma index_root_without_package_name_witness :
  ∃ self',
    index_root unit_package_src unit_package empty_indexer = Ok self' ∧
    packages self' = packages empty_indexer.
Proof.
  eexists. split; [reflexivity|].
  apply (index_root_without_package_name unit_package_src unit_package
           empty_indexer).
  - apply (find_package_in_None unit_package_src). reflexivity.
  - reflexivity.
Defined.

(** ** Fully-qualified names *)

Lemma append_assoc (a b c : string) : (a +:+ b) +:+ c = a +:+ (b +:+ c).
Proof.
  induction a as [|x a IH]; [done|].
  change (String x a +:+ b) with (String x (a +:+ b)).
  change (String x (a +:+ b) +:+ c) with (String x ((a +:+ b) +:+ c)).
  change (String x a +:+ (b +:+ c)) with (String x (a +:+ (b +:+ c))).
  by rewrite IH.
Qed.

Lemma concat_snoc sep names x :
  names ≠ [] →
  String.concat sep (names ++ [x]) = String.concat sep names +:+ sep +:+ x.
Proof.
  induction names as [|a names IH]; [done|]. intros _.
  destruct names as [|b names]; [done|].
  change (String.concat sep ((a :: b :: names) ++ [x]))
    with (a +:+ sep +:+ String.concat sep ((b :: names) ++ [x])).
  rewrite IH by done.
  change (String.concat sep (a :: b :: names))
    with (a +:+ sep +:+ String.concat sep (b :: names)).
  by rewrite !append_assoc.
Qed.

(** X14. The fully-qualified name of a nested class is that of the
    class around it, followed by ["."] and the simple name of the nested
    class. *)
Theorem fqcn_of_nested_class pkg names x :
  names ≠ [] →
  _fqcn pkg (names ++ [x]) = _fqcn pkg names +:+ "." +:+ x.
Proof.
  intros Hne. unfold _fqcn. rewrite (concat_snoc "." names x Hne).
  by rewrite !append_assoc.
Qed.

Lemma fqcn_of_nested_class_witness :
  _fqcn (Some "com.acme.demo") (["UserService"] ++ ["StringUtils"]) =
  _fqcn (Some "com.acme.demo") ["UserService"] +:+ "." +:+ "StringUtils".
Proof.
  apply (fqcn_of_nested_class (Some "com.acme.demo") ["UserService"] "StringUtils").
  done.
Defined.

(** X15. A fully-qualified name does not tell where the package ends:
    the classes [names] of a package [p.x] and the same classes nested in
    a class [x] of the package [p] get the same name, hence the same key
    in the registry. *)
Theorem fqcn_package_boundary_lost p x names :
  p ≠ "" → names ≠ [] →
  _fqcn (Some (p +:+ "." +:+ x)) names = _fqcn (Some p) (x :: names).
Proof.
  intros Hp Hn. unfold _fqcn.
  destruct p as [|a p]; [done|]. destruct names as [|b names]; [done|].
  change (String a p +:+ "." +:+ x) with (String a (p +:+ "." +:+ x)).
  cbn [truthy].
  change (String.concat "." (x :: b :: names))
    with (x +:+ "." +:+ String.concat "." (b :: names)).
  change (String a (p +:+ "." +:+ x)) with (String a p +:+ "." +:+ x).
  by rewrite !append_assoc.
Qed.

Lemma fqcn_package_boundary_lost_witness :
  _fqcn (Some ("a" +:+ "." +:+ "b")) ["C"] = _fqcn (Some "a") ["b"; "C"].
Proof.
  apply (fqcn_package_boundary_lost "a" "b" ["C"]); done.
Defined.

(** ** Slices of a string *)

Lemma substring_length s : ∀ n m,
  String.length (String.substring n m s) = m `min` (String.length s - n).
Proof.
  induction s as [|a s IH]; intros n m.
  - destruct n, m; cbn; lia.
  - destruct n as [|n]; cbn [String.substring String.length].
    + destruct m as [|m]; [done|]. cbn [String.length]. rewrite IH. lia.
    + rewrite IH. lia.
Qed.

(** ** What the method extractor leaves alone *)

(** X19. When [_index_method] returns, it has left the package set, the
    keys of the classes map, every other class and every other list of
    overloads as they were: only the list of the method's name in the
    class named by the stack has changed, and only at its end. *)
Theorem index_method_frame src node pkg stk self self' :
  _index_method src node pkg stk self = Ok self' →
  packages self' = packages self ∧
  dom (classes self') = dom (classes self) ∧
  (∀ k, k ≠ _fqcn pkg (frame_names stk) → classes self' !! k = classes self !! k) ∧
  (∀ k nm, ¬ (k = _fqcn pkg (frame_names stk) ∧ nm = name (method_info_of src node)) →
     overloads self' k nm = overloads self k nm) ∧
  (∀ k nm, overloads self k nm `prefix_of` overloads self' k nm).
Proof.
  destruct (decide (stk = [])) as [->|Hne].
  - intros [= <-]. split_and!; done.
  - rewrite (index_method_eq _ _ _ _ _ Hne).
    destruct (classes self !! _) as [cls|] eqn:Hcls; [|done]. intros [= <-].
    split_and!.
    + done.
    + unfold append_method. cbn [classes]. rewrite dom_insert_L.
      apply set_eq. intros x. rewrite elem_of_union, elem_of_singleton.
      split; [intros [->|Hx]; [by eapply elem_of_dom_2|done]|by right].
    + intros k Hk. unfold append_method. cbn [classes]. by rewrite lookup_insert_ne.
    + intros k nm Hno. rewrite (overloads_append _ _ _ _ _ _ Hcls).
      rewrite decide_False; [done|]. intros [<- <-]. by apply Hno.
    + intros k nm. apply grows_overloads. by apply append_method_grows.
Qed.

Lemma index_method_frame_witness :
  ∃ self',
    _index_method unit_two_calls_src method_m None [("C", 0, 0)] class_C_registered
      = Ok self' ∧
    packages self' = packages class_C_registered ∧
    dom (classes self') = dom (classes class_C_registered).
Proof.
  eexists. split; [reflexivity|].
  destruct (index_method_frame unit_two_calls_src method_m None [("C", 0, 0)]
              class_C_registered _ eq_refl) as (H1 & H2 & _).
  split; [exact H1|exact H2].
Defined.

(** ** The batch over a directory, in general *)

Lemma substring_app_r p : ∀ suffix,
  String.substring (String.length p) (String.length suffix) (p +:+ suffix) = suffix.
Proof.
  induction p as [|a p IH]; intros suffix.
  - change ("" +:+ suffix) with suffix. cbn [String.length].
    induction suffix as [|b suffix IHs]; [done|].
    cbn [String.length String.substring]. by rewrite IHs.
  - change (String a p +:+ suffix) with (String a (p +:+ suffix)).
    cbn [String.length String.substring]. apply IH.
Qed.

Lemma length_append (a b : string) :
  String.length (a +:+ b) = String.length a + String.length b.
Proof.
  induction a as [|x a IH]; [done|].
  change (String x a +:+ b) with (String x (a +:+ b)).
  cbn [String.length]. by rewrite IH.
Qed.

Lemma substring_split s : ∀ n,
  n ≤ String.length s →
  s = String.substring 0 n s +:+ String.substring n (String.length s - n) s.
Proof.
  induction s as [|a s IH]; intros n Hn.
  - cbn in Hn. by replace n with 0 by lia.
  - destruct n as [|n].
    + cbn [String.substring String.length Nat.sub].
      change ("" +:+ ?x) with x. f_equal.
      specialize (IH 0 ltac:(lia)). rewrite Nat.sub_0_r in IH.
      destruct s; [done|]. by cbn [String.substring] in IH.
    + cbn [String.length] in Hn. cbn [String.substring String.length Nat.sub].
      change (String a ?x +:+ ?y) with (String a (x +:+ y)). f_equal.
      apply IH. lia.
Qed.

(** [endswith] is the suffix test of Python's [str.endswith]. *)
Lemma endswith_spec s suffix :
  endswith s suffix = true ↔ ∃ p, s = p +:+ suffix.
Proof.
  unfold endswith. rewrite bool_decide_eq_true. split.
  - intros H.
    destruct (decide (String.length suffix ≤ String.length s)) as [Hle|Hgt].
    + set (n := String.length s - String.length suffix) in *.
      assert (String.length suffix = String.length s - n) as Hlen by lia.
      rewrite Hlen in H. exists (String.substring 0 n s). rewrite <- H.
      apply substring_split. lia.
    + apply (f_equal String.length) in H. rewrite substring_length in H. lia.
  - intros [p ->]. rewrite length_append.
    replace (String.length p + String.length suffix - String.length suffix)
      with (String.length p) by lia.
    apply substring_app_r.
Qed.

Lemma index_source_monotone parse source self :
  ∃ self', index_source parse source self = Ok self' ∧
    dom (classes self) ⊆ dom (classes self') ∧ packages self ⊆ packages self'.
Proof.
  unfold index_source.
  destruct (index_root_walk source (parse source) self) as (self' & E & _).
  exists self'. split; [done|]. split.
  - intros k Hk. apply (index_root_dom _ _ _ _ E k). by left.
  - rewrite (index_root_packages_eq _ _ _ _ E).
    destruct (_find_package source (parse source)) as [p|]; [|done].
    destruct (decide (p = "")); [done|]. apply union_subseteq_r.
Qed.

(** The three outcomes of the body of the loop over the file names. *)
Lemma index_file_cases parse read_text d fn (b : Batch) :
  (endswith fn ".java" = false ∧ index_file parse read_text d fn b = Ok b)
  ∨ (endswith fn ".java" = true ∧
     ∃ src idx, read_text (path_join d fn) = Ok src ∧
       index_file parse read_text d fn b = Ok (idx, b.2) ∧
       dom (classes b.1) ⊆ dom (classes idx) ∧ packages b.1 ⊆ packages idx)
  ∨ (endswith fn ".java" = true ∧
     (∃ e, read_text (path_join d fn) = Raise e) ∧
     index_file parse read_text d fn b = Raise (NameError "sys")).
Proof.
  unfold index_file. destruct (endswith fn ".java"); [|by left]. right.
  destruct (read_text (path_join d fn)) as [src|e] eqn:Hr.
  - left. split; [done|]. cbn [mbind Result_bind].
    destruct (index_source_monotone parse src b.1) as (idx & -> & H1 & H2).
    by exists src, idx.
  - right. split; [done|]. split; [by exists e|done].
Qed.

Lemma index_files_java parse read_text d fns b :
  index_files parse read_text d fns b =
  index_files parse read_text d (filter (λ fn, endswith fn ".java" = true) fns) b.
Proof.
  revert b. induction fns as [|fn fns IH]; intros b; [done|].
  rewrite filter_cons. destruct (decide (endswith fn ".java" = true)) as [Hj|Hj].
  - cbn [index_files]. destruct (index_file parse read_text d fn b); [|done]. apply IH.
  - cbn [index_files]. unfold index_file at 1.
    destruct (endswith fn ".java"); [done|]. cbn [mbind Result_bind]. apply IH.
Qed.

(** X20. Files whose name does not end in [.java] play no part in a
    batch: the outcome is the one for the listing with those names
    removed. *)
Theorem index_directory_java_only parse read_text walk b :
  index_directory parse read_text walk b =
  index_directory parse read_text (java_files walk) b.
Proof.
  revert b. induction walk as [|[d fns] walk IH]; intros b; [done|].
  cbn [index_directory java_files map fst snd].
  rewrite (index_files_java parse read_text d fns b).
  destruct (index_files parse read_text d _ b); [|done]. apply IH.
Qed.

Lemma index_files_outcome parse read_text d fns : ∀ b : Batch,
  ((∀ fn, fn ∈ fns → endswith fn ".java" = true →
      ∃ src, read_text (path_join d fn) = Ok src) ∧
   ∃ idx, index_files parse read_text d fns b = Ok (idx, b.2) ∧
     dom (classes b.1) ⊆ dom (classes idx) ∧ packages b.1 ⊆ packages idx)
  ∨ ((∃ fn e, fn ∈ fns ∧ endswith fn ".java" = true ∧
        read_text (path_join d fn) = Raise e) ∧
     index_files parse read_text d fns b = Raise (NameError "sys")).
Proof.
  induction fns as [|fn fns IH]; intros b.
  - left. split; [by intros fn Hfn%elem_of_nil|]. exists b.1. by destruct b.
  - cbn [index_files].
    destruct (index_file_cases parse read_text d fn b)
      as [[Hj ->]|[(Hj & src & idx & Hr & -> & D & P)|(Hj & [e Hr] & ->)]];
      cbn [mbind Result_bind].
    + destruct (IH b) as [[Hall Hok]|[(fn' & e & Hin & Hj' & Hr') ->]].
      * left. split; [|done]. intros fn' [->|Hin]%elem_of_cons Hj'; [congruence|by apply Hall].
      * right. split; [|done]. exists fn', e. split_and!; [by apply list_elem_of_further|done..].
    + destruct (IH (idx, b.2)) as [[Hall (idx' & -> & D' & P')]|[(fn' & e & Hin & Hj' & Hr') ->]].
      * left. split.
        -- intros fn' [->|Hin]%elem_of_cons Hj'; [by exists src|by apply Hall].
        -- exists idx'. cbn [fst snd] in *. split_and!; [done|by etrans|by etrans].
      * right. split; [|done]. exists fn', e. split_and!; [by apply list_elem_of_further|done..].
    + right. split; [|done]. exists fn, e. split_and!; [apply list_elem_of_here|done..].
Qed.

Lemma index_directory_outcome_gen parse read_text walk : ∀ b : Batch,
  (all_readable read_text walk ∧
   ∃ idx, index_directory parse read_text walk b = Ok (idx, b.2) ∧
     dom (classes b.1) ⊆ dom (classes idx) ∧ packages b.1 ⊆ packages idx)
  ∨ (¬ all_readable read_text walk ∧
     index_directory parse read_text walk b = Raise (NameError "sys")).
Proof.
  induction walk as [|[d fns] walk IH]; intros b.
  - left. split; [by intros d fns fn Hin%elem_of_nil|]. exists b.1. by destruct b.
  - cbn [index_directory].
    destruct (index_files_outcome parse read_text d fns b)
      as [[Hall (idx & -> & D & P)]|[(fn & e & Hin & Hj & Hr) ->]];
      cbn [mbind Result_bind].
    + destruct (IH (idx, b.2)) as [[Hall' (idx' & -> & D' & P')]|[Hno ->]].
      * left. split.
        -- intros d' fns' fn [[= -> ->]|Hin]%elem_of_cons Hfn Hj;
             [by apply Hall|by eapply Hall'].
        -- exists idx'. cbn [fst snd] in *. split_and!; [done|by etrans|by etrans].
      * right. split; [|done]. intros Hall'. apply Hno.
        intros d' fns' fn Hin. apply Hall'. by apply list_elem_of_further.
    + right. split; [|done]. intros Hall.
      destruct (Hall d fns fn (list_elem_of_here _ _) Hin Hj) as [src Hsrc]. congruence.
Qed.

(** X21. When [index_directory] returns, every [.java] file of the
    listing could be read, nothing was written to the standard error
    stream, and the registry has kept all its classes and packages. *)
Theorem index_directory_returns parse read_text walk (b r : Batch) :
  index_directory parse read_text walk b = Ok r →
  all_readable read_text walk ∧
  r.2 = b.2 ∧ dom (classes b.1) ⊆ dom (classes r.1) ∧
  packages b.1 ⊆ packages r.1.
Proof.
  destruct (index_directory_outcome_gen parse read_text walk b)
    as [[Hall (idx & E & D & P)]|[Hno E]]; rewrite E; [|done].
  by intros [= <-].
Qed.

Lemma index_directory_returns_witness :
  all_readable (λ _, Ok unit_two_calls_src) [("src", ["C.java"; "notes.txt"])] ∧
  (two_calls_indexed, @nil string).2 = (empty_indexer, @nil string).2 ∧
  dom (classes (empty_indexer, @nil string).1)
    ⊆ dom (classes (two_calls_indexed, @nil string).1) ∧
  packages (empty_indexer, @nil string).1
    ⊆ packages (two_calls_indexed, @nil string).1.
Proof.
  apply (index_directory_returns (λ _, unit_two_calls)
           (λ _, Ok unit_two_calls_src) [("src", ["C.java"; "notes.txt"])]
           (empty_indexer, []) (two_calls_indexed, [])).
  vm_compute; reflexivity.
Defined.

(** X22. Whatever the directory and whatever goes wrong in it,
    [index_directory] never writes a warning, and the only exception that
    leaves it is the [NameError] for [sys]: either it returns with the
    standard error stream as it was, or it raises that error. *)
Theorem index_directory_never_warns parse read_text walk (b : Batch) :
  (∃ idx, index_directory parse read_text walk b = Ok (idx, b.2))
  ∨ index_directory parse read_text walk b = Raise (NameError "sys").
Proof.
  destruct (index_directory_outcome_gen parse read_text walk b)
    as [[_ (idx & E & _)]|[_ E]]; [left; by exists idx|by right].
Qed.

(** ** main.py *)

(** X24. [main] never returns normally. When the indexer is built (the
    grammar loads and the parser accepts it) and the indexing step
    returns, [main] prints the summary of the index and its JSON export,
    and then raises [AttributeError]: a [JavaIndexer] has no attribute
    [query_imports]. When it ends with anything else it has printed
    nothing. *)
Theorem main_always_raises (Language : Type)
    (get_language : string → option Language) (environ : gmap string string)
    (path_exists : string → bool)
    (load_library : string → string → Exn + Language)
    (new_parser : Language → string + (string → Node))
    (os_walk : string → list (string * list string))
    (read_text : string → Result string)
    (print_summary : JavaIndexer → list string)
    (to_json : JavaIndexer → string) (SAMPLE_JAVA : string)
    (argv : list string) :
  let run := main Language get_language environ path_exists load_library
               new_parser os_walk read_text print_summary to_json SAMPLE_JAVA
               argv in
  (∃ e, run.2 = inl e) ∧
  (∀ parse indexer idx err,
     JavaIndexer_init Language get_language environ path_exists load_library
       new_parser = inr (parse, indexer) →
     main_index os_walk read_text SAMPLE_JAVA parse argv indexer
       = Ok (idx, err) →
     run = (print_summary idx ++ ["
=== JSON ==="; to_json idx],
            inl (AttributeError "JavaIndexer" "query_imports"))) ∧
  (∀ e, run.2 = inl e → e ≠ AttributeError "JavaIndexer" "query_imports" →
     run.1 = []).
Proof.
  intros run. unfold run, main.
  destruct (JavaIndexer_init _ _ _ _ _ _) as [e|[parse indexer]].
  { cbn. split_and!; [by eexists|done|done]. }
  destruct (main_index _ _ _ _ _ _) as [[idx err]|e] eqn:E.
  - cbn. split_and!.
    + by eexists.
    + intros parse' indexer' idx' err' [= <- <-] H.
      rewrite E in H. by injection H as <- <-.
    + by intros e [= <-] He.
  - cbn. split_and!; [by eexists| |done].
    intros parse' indexer' idx' err' [= <- <-] H. rewrite E in H. discriminate H.
Qed.
